(** * LUSTHABEN: the interaction layer of the 3D showcase scene

    A shallow embedding of [src/main.js] and [src/loadModelSafe.js]:
    the interactive-object record kept in [userData], the pointer callbacks
    installed by [makeInteractable], the per-frame tick (rotation and scale
    easing), the edge-pan step of the overridden [controls.update], the model
    loader with its promise plumbing, and the audio autoplay fallback.

    JavaScript numbers are IEEE 754 binary64 values; they are modelled by the
    primitive [float] type, whose operations round exactly as the JavaScript
    ones do.  Functions of the rendering library that need trigonometry
    ([rotateOnAxis], the Euler/quaternion conversions) and the wrapped
    [FlyControls.update] and [SceneManager._tick] are parameters of a section. *)

From Stdlib Require Import Floats ZArith QArith Qabs Qround List Bool String Lia Lqa.
From Stdlib Require Import Permutation.
Import ListNotations.

#[local] Set Warnings "-inexact-float,-register-all".
#[local] Open Scope float_scope.

(* ================================================================== *)
(** ** JavaScript numbers *)

Module JS.

(** [ToBoolean] on a number: [0], [-0] and [NaN] are falsy. *)
Definition truthy (n : float) : bool :=
  negb ((n =? 0) || is_nan n).

(** [a || b] on numbers. *)
Definition or_else (a b : float) : float :=
  if truthy a then a else b.

(** [ToBoolean] on a string: only the empty string is falsy. *)
Definition truthy_string (s : string) : bool :=
  match s with
  | EmptyString => false
  | String _ _ => true
  end.

(** [ToBoolean] on an optional string argument ([None] is [undefined]). *)
Definition truthy_arg (a : option string) : bool :=
  match a with
  | Some s => truthy_string s
  | None => false
  end.

(** [a ?? b]: the right operand is used only when the left one is absent. *)
Definition nullish {A : Type} (a : option A) (b : A) : A :=
  match a with
  | Some v => v
  | None => b
  end.

(** A parameter or destructured property with a default: [p = d]. *)
Definition or_default {A : Type} (p : option A) (d : A) : A :=
  match p with
  | Some v => v
  | None => d
  end.

End JS.

(* ================================================================== *)
(** ** The pieces of the rendering library's data the script touches *)

Module Vector3.

Record t := mk { x : float; y : float; z : float }.

(** [new THREE.Vector3(...a)]: missing components default to [0]. *)
Definition of_list (a : list float) : t :=
  mk (nth 0 a 0) (nth 1 a 0) (nth 2 a 0).

Definition setScalar (s : float) : t := mk s s s.

Definition multiplyScalar (k : float) (v : t) : t :=
  mk (x v * k) (y v * k) (z v * k).

Definition divideScalar (s : float) (v : t) : t :=
  multiplyScalar (1 / s) v.

Definition length (v : t) : float :=
  sqrt (x v * x v + y v * y v + z v * z v).

(** [normalize()] is [divideScalar(length() || 1)]. *)
Definition normalize (v : t) : t :=
  divideScalar (JS.or_else (length v) 1) v.

Definition uniform (v : t) : Prop := x v = y v /\ y v = z v.

End Vector3.

Module Quaternion.
Record t := mk { x : float; y : float; z : float; w : float }.
End Quaternion.

Module Euler.
(** Euler angles; the script only uses the order "YXZ", so [y] is the yaw. *)
Record t := mk { x : float; y : float; z : float }.

Definition set_y (e : t) (v : float) : t := mk (x e) v (z e).
End Euler.

(* ------------------------------------------------------------------ *)
(** *** Scale and rotation descriptors, callbacks, [userData] *)

Record ScaleDesc := { base : float; hover : float; click : option float }.

Record RotationDesc := { axis : list float; speed : float }.

(** The options object of [makeInteractable]; [None] is an omitted property. *)
Record Options := {
  opt_scale : option ScaleDesc;
  opt_rotation : option RotationDesc
}.

(** The arrow functions stored in [userData], each with the variables it
    closes over.  The captured [obj] is always the object the closure is
    stored on, so a call acts on the object it is looked up from. *)
Inductive Callback :=
| HoverEnterFn (scale : ScaleDesc)
| HoverExitFn (scale : ScaleDesc)
| ClickFn (modalId : option string) (scale : ScaleDesc)
| SphereEnterFn
| SphereExitFn
| SphereClickFn.

Module UserData.

Record t := mk {
  interactable : bool;
  scale : option ScaleDesc;
  targetScale : option float;
  rotationAxis : option Vector3.t;
  rotationSpeed : option float;
  onHoverEnter : option Callback;
  onHoverExit : option Callback;
  onClick : option Callback
}.

(** A fresh object's [userData] is [{}]. *)
Definition empty : t :=
  mk false None None None None None None None.

End UserData.

(** The fields of a scene-graph object that the interaction code reads or
    writes.  Materials and shadow flags, which the script only sets while
    loading, are left out. *)
Record Node := mkNode {
  position : Vector3.t;
  quaternion : Quaternion.t;
  scale : Vector3.t;
  isMesh : bool;
  userData : UserData.t
}.

(** An object with its children. *)
Inductive Object3D := Obj { node : Node; children : list Object3D }.

(** [o.traverse(cb)]: the callback runs on the object, then on every
    descendant.  The callbacks of this script only write fields of the object
    they receive, so a callback is a function on [Node]. *)
Fixpoint traverse (cb : Node -> Node) (o : Object3D) : Object3D :=
  match o with
  | Obj n cs => Obj (cb n) (map (traverse cb) cs)
  end.

(** The objects of a graph, in traversal order. *)
Fixpoint objects (o : Object3D) : list Node :=
  match o with
  | Obj n cs => n :: flat_map objects cs
  end.

(** [o.add(child)] *)
Definition add (o child : Object3D) : Object3D :=
  Obj (node o) (children o ++ [child]).

(* ------------------------------------------------------------------ *)
(** *** Field updates *)

Definition set_position (o : Node) (v : Vector3.t) : Node :=
  mkNode v (quaternion o) (scale o) (isMesh o) (userData o).

Definition set_quaternion (o : Node) (q : Quaternion.t) : Node :=
  mkNode (position o) q (scale o) (isMesh o) (userData o).

Definition set_scale (o : Node) (v : Vector3.t) : Node :=
  mkNode (position o) (quaternion o) v (isMesh o) (userData o).

Definition set_userData (o : Node) (u : UserData.t) : Node :=
  mkNode (position o) (quaternion o) (scale o) (isMesh o) u.

Definition set_targetScale (o : Node) (v : float) : Node :=
  let u := userData o in
  set_userData o
    (UserData.mk (UserData.interactable u) (UserData.scale u) (Some v)
       (UserData.rotationAxis u) (UserData.rotationSpeed u)
       (UserData.onHoverEnter u) (UserData.onHoverExit u) (UserData.onClick u)).

(* ================================================================== *)
(** ** Constants *)

Definition BASE_SCALE : float := 1.3.
Definition HOVER_SCALE : float := 1.5.
Definition CLICK_SCALE : float := 2.1.
Definition NORMAL_SCALE : float := 2.

Definition edgeMargin : float := 0.05.
Definition panSpeed : float := 0.02.

(* ================================================================== *)
(** ** Interaction helpers *)

(** Modelled from the spec: [openModal] of modal.js, which is not among the
    sources, opens the on-screen informational panel for a modal id.  A call
    [openModal(obj, modalId)] is recorded with its arguments and taken to
    return normally; the other effect of a callback is a navigation through
    [window.location.href]. *)
Inductive Effect :=
| OpenModal (obj : Node) (modalId : string)
| Navigate (href : string).

Definition default_scale : ScaleDesc :=
  {| base := BASE_SCALE; hover := HOVER_SCALE; click := Some CLICK_SCALE |}.

Definition makeInteractable
    (obj : Node) (modalId : option string) (options : Options) : Node :=
  let scale := JS.or_default (opt_scale options) default_scale in
  let u := userData obj in
  let axis_speed :=
    match opt_rotation options with
    | Some rotation =>
        (Some (Vector3.normalize (Vector3.of_list (axis rotation))),
         Some (speed rotation))
    | None => (UserData.rotationAxis u, UserData.rotationSpeed u)
    end in
  mkNode (position obj) (quaternion obj)
    (Vector3.setScalar (base scale))
    (isMesh obj)
    (UserData.mk true (Some scale) (Some (base scale))
       (fst axis_speed) (snd axis_speed)
       (Some (HoverEnterFn scale))
       (Some (HoverExitFn scale))
       (Some (ClickFn modalId scale))).

(** Running a stored closure on the object that carries it. *)
Definition call (cb : Callback) (obj : Node) : Node * list Effect :=
  match cb with
  | HoverEnterFn scale => (set_targetScale obj (hover scale), [])
  | HoverExitFn scale => (set_targetScale obj (base scale), [])
  | ClickFn modalId scale =>
      let opened :=
        match modalId with
        | Some id => if JS.truthy_arg modalId then [OpenModal obj id] else []
        | None => []
        end in
      (set_targetScale obj (JS.nullish (click scale) (hover scale)), opened)
  | SphereEnterFn => (set_targetScale obj 1.5, [])
  | SphereExitFn => (set_targetScale obj 1, [])
  | SphereClickFn => (obj, [Navigate "./darkroom.html"])
  end.

(** [obj.userData?.f?.()] *)
Definition call_optional (f : option Callback) (obj : Node)
  : Node * list Effect :=
  match f with
  | Some cb => call cb obj
  | None => (obj, [])
  end.

(** The three handlers handed to [createPointer]. *)
Definition pointer_onClick (obj : Node) : Node * list Effect :=
  call_optional (UserData.onClick (userData obj)) obj.

Definition pointer_onHoverEnter (obj : Node) : Node * list Effect :=
  call_optional (UserData.onHoverEnter (userData obj)) obj.

Definition pointer_onHoverExit (obj : Node) : Node * list Effect :=
  call_optional (UserData.onHoverExit (userData obj)) obj.

Definition applyInteractionRecursively
    (obj : Object3D) (modalId : option string) (options : Options)
  : Object3D :=
  traverse
    (fun child =>
       if isMesh child then makeInteractable child modalId options else child)
    (Obj (makeInteractable (node obj) modalId options) (children obj)).

(** [new THREE.Object3D()]: at the origin, not rotated, at scale one, with
    an empty [userData]. *)
Definition Object3D_new : Node :=
  mkNode (Vector3.mk 0 0 0) (Quaternion.mk 0 0 0 1) (Vector3.mk 1 1 1)
    false UserData.empty.

(** The interactive-object record of an object set up with the descriptor
    [sc] and [modalId], in any of its later states: the flag, the descriptor,
    some target scale, the three closures, and a uniform scale. *)
Record Interactive (sc : ScaleDesc) (modalId : option string) (o : Node)
  : Prop := {
  has_flag : UserData.interactable (userData o) = true;
  has_descriptor : UserData.scale (userData o) = Some sc;
  has_target : exists t, UserData.targetScale (userData o) = Some t;
  has_enter : UserData.onHoverEnter (userData o) = Some (HoverEnterFn sc);
  has_exit : UserData.onHoverExit (userData o) = Some (HoverExitFn sc);
  has_click : UserData.onClick (userData o) = Some (ClickFn modalId sc);
  has_uniform_scale : Vector3.uniform (scale o)
}.

(** What a frame leaves alone: the position, the kind of object, and the
    whole of [userData] (target scale, descriptors, closures). *)
Definition same_frame (o o' : Node) : Prop :=
  position o' = position o /\
  isMesh o' = isMesh o /\
  userData o' = userData o.

(** The darkroom sphere: a mesh at the default scale whose [userData] is
    filled in by hand. *)
Definition sphere : Node :=
  mkNode (Vector3.mk (-80) 20 (-700))
    (Quaternion.mk 0 0 0 1)
    (Vector3.mk 1 1 1)
    true
    (UserData.mk true None (Some 1) None None
       (Some SphereEnterFn) (Some SphereExitFn) (Some SphereClickFn)).

(* ================================================================== *)
(** ** The scale-easing rule *)

(** The rule as the design notes write it, [scale += (target - scale) * 0.1]:
    the new scale computed from the current scale [s] and the target [t]. *)
Definition ease (s t : float) : float := s + (t - s) * 0.1.

(** [n] frames with the target held at [t]. *)
Fixpoint ease_iter (n : nat) (s t : float) : float :=
  match n with
  | O => s
  | S k => ease_iter k (ease s t) t
  end.






(* ================================================================== *)
(** ** The scene manager, the tick and the controls *)

(** Modelled from the spec: the scene/renderer wrapper of sceneManager.js is
    not among the sources; of the manager only the scene graph and the camera,
    which the script reaches through it, are kept. *)
Record SceneManager := { scene : Object3D; camera : Node }.

Definition set_scene (m : SceneManager) (s : Object3D) : SceneManager :=
  {| scene := s; camera := camera m |}.

(** [mousemove]: the pointer's horizontal position relative to the canvas. *)
Definition mousemove (clientX left width : float) : float :=
  (clientX - left) / width.

(** What happens to one object: a frame, or one of the three pointer events
    for which the helper of pointer.js calls the handlers it was given. *)
Inductive Event :=
| Frame (delta : float)
| HoverEnter
| HoverExit
| Click.

Section Scene.

(** [Object3D.rotateOnAxis(axis, angle)], acting on the orientation. *)
Variable rotateOnAxis : Quaternion.t -> Vector3.t -> float -> Quaternion.t.

(** [new THREE.Euler().setFromQuaternion(q, "YXZ")] and
    [Quaternion.setFromEuler(e)]. *)
Variable setFromQuaternion : Quaternion.t -> Euler.t.
Variable setFromEuler : Euler.t -> Quaternion.t.

(** [FlyControls.prototype.update], acting on the controlled camera. *)
Variable originalUpdate : float -> Node -> Node.

(** [SceneManager.prototype._tick], bound to the manager before it is wrapped. *)
Variable originalTick : float -> SceneManager -> SceneManager.

(** The callback handed to [manager.scene.traverse] by the new tick. *)
Definition tickObject (delta : float) (obj : Node) : Node :=
  let obj :=
    match UserData.rotationAxis (userData obj),
          UserData.rotationSpeed (userData obj) with
    | Some axis, Some speed =>
        set_quaternion obj (rotateOnAxis (quaternion obj) axis (speed * delta))
    | _, _ => obj
    end in
  match UserData.targetScale (userData obj) with
  | Some t =>
      let s := Vector3.x (scale obj) in
      set_scale obj (Vector3.setScalar (s + (t - s) * 0.1))
  | None => obj
  end.

Definition _tick (delta : float) (manager : SceneManager) : SceneManager :=
  originalTick delta
    (set_scene manager (traverse (tickObject delta) (scene manager))).

(** One object's life: frames interleaved with pointer events. *)
Definition react (e : Event) (obj : Node) : Node :=
  match e with
  | Frame delta => tickObject delta obj
  | HoverEnter => fst (pointer_onHoverEnter obj)
  | HoverExit => fst (pointer_onHoverExit obj)
  | Click => fst (pointer_onClick obj)
  end.

Definition run (es : list Event) (obj : Node) : Node :=
  fold_left (fun o e => react e o) es obj.

(** The two edge tests of the overridden [controls.update]. *)
Definition edgePan (mouseX : float) (euler : Euler.t) : Euler.t :=
  let euler :=
    if mouseX <? edgeMargin
    then Euler.set_y euler (Euler.y euler + panSpeed) else euler in
  if 1 - edgeMargin <? mouseX
  then Euler.set_y euler (Euler.y euler - panSpeed) else euler.

(** [controls.update = delta => { ... }] *)
Definition update (mouseX delta : float) (object : Node) : Node :=
  let object := originalUpdate delta object in
  let euler := setFromQuaternion (quaternion object) in
  set_quaternion object (setFromEuler (edgePan mouseX euler)).

End Scene.

(* ================================================================== *)
(** ** Promises and the model loader *)

Definition Error := string.

(** A settled promise. *)
Inductive Promise (A : Type) :=
| Fulfilled (value : A)
| Rejected (reason : Error).

Arguments Fulfilled {A} value.
Arguments Rejected {A} reason.

Module GLTF.
Record t := mk { scene : Object3D }.
End GLTF.

(** What [GLTFLoader.load] does with the callbacks it is given. *)
Inductive LoaderResult :=
| OnLoad (gltf : GLTF.t)
| OnError (err : Error).

(** The page as the loading code sees it: the scene manager, the lines
    written by [console.error], and the rejections nobody handled. *)
Record World := {
  manager : SceneManager;
  console : list Error;
  unhandled : list Error
}.

Definition console_error (err : Error) (w : World) : World :=
  {| manager := manager w;
     console := console w ++ [err];
     unhandled := unhandled w |}.

Definition scene_add (child : Object3D) (w : World) : World :=
  {| manager := set_scene (manager w) (add (scene (manager w)) child);
     console := console w;
     unhandled := unhandled w |}.

(** [p.then(f)] for a callback that returns nothing. *)
Definition then_ {A : Type} (p : Promise A * World)
    (onFulfilled : A -> World -> World) : Promise unit * World :=
  match p with
  | (Fulfilled v, w) => (Fulfilled tt, onFulfilled v w)
  | (Rejected e, w) => (Rejected e, w)
  end.

(** [p.catch(f)] *)
Definition catch_ (p : Promise unit * World)
    (onRejected : Error -> World -> World) : Promise unit * World :=
  match p with
  | (Fulfilled v, w) => (Fulfilled v, w)
  | (Rejected e, w) => (Fulfilled tt, onRejected e w)
  end.

(** An expression statement whose promise is dropped: a rejection that no
    handler was attached to is reported by the host as unhandled. *)
Definition discard {A : Type} (p : Promise A * World) : World :=
  match p with
  | (Fulfilled _, w) => w
  | (Rejected e, w) =>
      {| manager := manager w;
         console := console w;
         unhandled := unhandled w ++ [e] |}
  end.

Module Args.
(** The argument object of [loadInteractiveModel] (the material is left out). *)
Record t := mk {
  path : string;
  position : Vector3.t;
  modalId : option string;
  scale : option ScaleDesc;
  rotation : option RotationDesc;
  yRotation : option float
}.
End Args.

Definition normal_scale : ScaleDesc :=
  {| base := NORMAL_SCALE;
     hover := NORMAL_SCALE * 1.1;
     click := Some (NORMAL_SCALE * 1.2) |}.

Definition pressure : Args.t :=
  Args.mk "./assets/pressure/pressure.gltf" (Vector3.mk 10 20 (-70))
    (Some "text-1"%string)
    (Some {| base := 1.2; hover := 1.8; click := Some 2 |})
    (Some {| axis := [0; 1; 0]; speed := 0.01 |}) None.

Definition hands : Args.t :=
  Args.mk "./assets/hands/hands.gltf" (Vector3.mk (-60) 20 (-150))
    (Some "text-2"%string)
    (Some {| base := 1.5; hover := 1.8; click := Some 2 |})
    (Some {| axis := [0; 1; 0]; speed := 0.005 |}) None.

Definition weird_shape : Args.t :=
  Args.mk "./assets/weird_shape/weird_shape2.gltf" (Vector3.mk (-20) 15 (-250))
    (Some "text-3"%string)
    (Some {| base := 0.3; hover := 0.33; click := Some 0.36 |})
    (Some {| axis := [1; 0; 0]; speed := 0.01 |}) None.

Definition air : Args.t :=
  Args.mk "./assets/air/air.gltf" (Vector3.mk 40 30 (-360))
    (Some "text-4"%string)
    (Some {| base := 2.3; hover := 2.5; click := Some 2.8 |})
    (Some {| axis := [0; 1; 0]; speed := 0.08 |}) None.

Definition melting : Args.t :=
  Args.mk "./assets/melting/melting_man2.gltf" (Vector3.mk (-20) 25 (-550))
    (Some "text-5"%string)
    (Some {| base := 2.8; hover := 3; click := Some 3.5 |})
    (Some {| axis := [0; 0; 1]; speed := 0.01 |}) None.

(** The five calls of [loadInteractiveModel], in program order. *)
Definition models : list Args.t := [pressure; hands; weird_shape; air; melting].



Definition warehouse_path : string := "./assets/warehouse/warehouse_remeshed.gltf".

Section Loading.

(** [o.rotation.y = v], which rewrites the orientation of [o]. *)
Variable setRotationY : Quaternion.t -> float -> Quaternion.t.

(** The outcome of [loader.load] for each path. *)
Variable load : string -> LoaderResult.

(** The error, if any, with which the loader answers for [path]. *)
Definition failure (path : string) : list Error :=
  match load path with
  | OnError err => [err]
  | OnLoad _ => []
  end.

Definition loadModelSafe (path : string) : Promise Object3D :=
  match load path with
  | OnLoad gltf => Fulfilled (GLTF.scene gltf)
  | OnError err => Rejected err
  end.

(** [async function loadInteractiveModel({...})]: a rejected [await] ends the
    function and rejects the promise it returned.  [model.clone(true)] is a
    deep copy, here the value itself; the traversal that sets materials and
    shadow flags touches no field of [Node]. *)
Definition loadInteractiveModel (args : Args.t) (w : World)
  : Promise unit * World :=
  let scale := JS.or_default (Args.scale args) normal_scale in
  match loadModelSafe (Args.path args) with
  | Rejected err => (Rejected err, w)
  | Fulfilled model =>
      let n := node model in
      let n := set_position n (Args.position args) in
      let n :=
        set_quaternion n
          (setRotationY (quaternion n) (JS.or_default (Args.yRotation args) 0)) in
      let n := set_scale n (Vector3.setScalar (base scale)) in
      let clone :=
        applyInteractionRecursively (Obj n (children model))
          (Args.modalId args)
          {| opt_scale := Some scale; opt_rotation := Args.rotation args |} in
      (Fulfilled tt, scene_add clone w)
  end.

(** The warehouse: [loadModelSafe(...).then(...).catch(console.error)]. *)
Definition loadWarehouse (w : World) : World :=
  discard
    (catch_
       (then_ (loadModelSafe warehouse_path, w)
          (fun model w =>
             let n := set_scale (node model) (Vector3.setScalar 20) in
             let n := set_position n (Vector3.mk 100 (-50) (-300)) in
             let n :=
               set_quaternion n
                 (setRotationY (quaternion n) 0x1.921fb54442d18p+0) in
             scene_add (Obj n (children model)) w))
       console_error).

(** The loading statements of the script, in program order. *)
Definition loadAll (w : World) : World :=
  loadWarehouse
    (fold_left (fun w args => discard (loadInteractiveModel args w)) models w).

End Loading.

(* ================================================================== *)
(** ** Background audio *)

(** The handler [() => bgAudio.play()]. *)
Inductive Handler := PlayAudio.

(** A listener registered on [window] for "click", with its [once] option. *)
Record Listener := { handler : Handler; once : bool }.

Record Page := { clickListeners : list Listener; playCalls : nat }.

Definition play (p : Page) : Page :=
  {| clickListeners := clickListeners p; playCalls := S (playCalls p) |}.

Definition addEventListener (l : Listener) (p : Page) : Page :=
  {| clickListeners := clickListeners p ++ [l]; playCalls := playCalls p |}.

(** [bgAudio.play().catch(() => window.addEventListener("click", () =>
    bgAudio.play(), { once: true }))]; [autoplay] is how the first [play()]
    settles. *)
Definition startAudio (autoplay : Promise unit) (p : Page) : Page :=
  let p := play p in
  match autoplay with
  | Fulfilled _ => p
  | Rejected _ =>
      addEventListener {| handler := PlayAudio; once := true |} p
  end.

(** A click on the window: every registered listener runs, and those
    registered with [once] are removed. *)
Definition click_window (p : Page) : Page :=
  fold_left (fun p l => match handler l with PlayAudio => play p end)
    (clickListeners p)
    {| clickListeners := filter (fun l => negb (once l)) (clickListeners p);
       playCalls := playCalls p |}.

Fixpoint clicks (n : nat) (p : Page) : Page :=
  match n with
  | O => p
  | S k => clicks k (click_window p)
  end.

Definition initial_page : Page := {| clickListeners := []; playCalls := O |}.

(* ================================================================== *)
(** ** The script as a whole *)

(** The target scale an event leaves on an object whose closures were made
    for the descriptor [sc], when the target was [t] before the event. *)
Definition target_after (sc : ScaleDesc) (t : float) (e : Event) : float :=
  match e with
  | Frame _ => t
  | HoverEnter => hover sc
  | HoverExit => base sc
  | Click => JS.nullish (click sc) (hover sc)
  end.

(** Two states of an object that differ at most in the orientation. *)
Definition same_but_orientation (o o' : Node) : Prop :=
  position o' = position o /\
  scale o' = scale o /\
  isMesh o' = isMesh o /\
  userData o' = userData o.

Section Script.

Variable setRotationY : Quaternion.t -> float -> Quaternion.t.
Variable load : string -> LoaderResult.

(** The object [loadInteractiveModel] adds to the scene for a loaded
    [model]: the clone, placed, turned, scaled and made interactive. *)
Definition interactiveClone (args : Args.t) (model : Object3D) : Object3D :=
  let scale := JS.or_default (Args.scale args) normal_scale in
  let n := node model in
  let n := set_position n (Args.position args) in
  let n :=
    set_quaternion n
      (setRotationY (quaternion n) (JS.or_default (Args.yRotation args) 0)) in
  let n := set_scale n (Vector3.setScalar (base scale)) in
  applyInteractionRecursively (Obj n (children model))
    (Args.modalId args)
    {| opt_scale := Some scale; opt_rotation := Args.rotation args |}.

(** The object the warehouse callback adds to the scene. *)
Definition warehouseClone (model : Object3D) : Object3D :=
  let n := set_scale (node model) (Vector3.setScalar 20) in
  let n := set_position n (Vector3.mk 100 (-50) (-300)) in
  let n :=
    set_quaternion n (setRotationY (quaternion n) 0x1.921fb54442d18p+0) in
  Obj n (children model).

(** What a load of [path] contributes to the scene: the prepared clone when
    the loader answers with a model, nothing when it answers with an error. *)
Definition loaded (path : string) (prepare : Object3D -> Object3D)
  : list Object3D :=
  match load path with
  | OnLoad gltf => [prepare (GLTF.scene gltf)]
  | OnError _ => []
  end.

(** A load the script starts, and what happens when it settles. *)
Inductive Load :=
| InteractiveLoad (args : Args.t)
| WarehouseLoad.

Definition whenSettled (l : Load) (w : World) : World :=
  match l with
  | InteractiveLoad args =>
      discard (loadInteractiveModel setRotationY load args w)
  | WarehouseLoad => loadWarehouse setRotationY load w
  end.

(** The loads settling one after the other, in the order of the list. *)
Definition settleLoads (ls : list Load) (w : World) : World :=
  fold_left (fun w l => whenSettled l w) ls w.

(** The six loads of the script, in program order. *)
Definition loads : list Load := map InteractiveLoad models ++ [WarehouseLoad].

(** What a settled load leaves behind: the objects it added to the scene,
    the errors it passed to [console.error], and the rejections it left
    unhandled. *)
Definition added (l : Load) : list Object3D :=
  match l with
  | InteractiveLoad args => loaded (Args.path args) (interactiveClone args)
  | WarehouseLoad => loaded warehouse_path warehouseClone
  end.

Definition logged (l : Load) : list Error :=
  match l with
  | InteractiveLoad _ => []
  | WarehouseLoad => failure load warehouse_path
  end.

Definition dropped (l : Load) : list Error :=
  match l with
  | InteractiveLoad args => failure load (Args.path args)
  | WarehouseLoad => []
  end.

(** Textures, the outcome of [EXRLoader.load] for a path, and
    [pmrem.fromEquirectangular(texture).texture]. *)
Variable Texture : Type.
Variable loadEXR : string -> Texture + Error.
Variable fromEquirectangular : Texture -> Texture.

(** [async function loadHDRI(path)] *)
Definition loadHDRI (path : string) : Promise Texture :=
  match loadEXR path with
  | inl texture => Fulfilled (fromEquirectangular texture)
  | inr err => Rejected err
  end.

(** The page once the module has run and the loads it started have settled:
    the world, the audio state, [manager.scene.environment], and whether
    [manager.start()] was reached. *)
Record Script := {
  world : World;
  page : Page;
  environment : option Texture;
  started : bool
}.

(** The top level of the module.  The audio is started first.  The
    [await loadHDRI(...)] is a top-level await: a rejection ends the
    evaluation of the module there, as an error nobody handles.  Otherwise
    the environment is set, the six loads are started, the sphere is added,
    the tick is wrapped and the manager is started; the loads settle
    afterwards, so their clones come after the sphere. *)
Definition main (autoplay : Promise unit) (w : World) : Script :=
  let page := startAudio autoplay initial_page in
  match loadHDRI "./assets/studio_small_09_4k.exr" with
  | Rejected err =>
      {| world :=
           {| manager := manager w;
              console := console w;
              unhandled := unhandled w ++ [err] |};
         page := page;
         environment := None;
         started := false |}
  | Fulfilled envMap =>
      {| world := loadAll setRotationY load (scene_add (Obj sphere []) w);
         page := page;
         environment := Some envMap;
         started := true |}
  end.

End Script.

Arguments world {Texture} s.
Arguments page {Texture} s.
Arguments environment {Texture} s.
Arguments started {Texture} s.
Arguments loadHDRI {Texture} loadEXR fromEquirectangular path.
Arguments main setRotationY load {Texture} loadEXR fromEquirectangular
  autoplay w.

(* ================================================================== *)
(** * Properties *)

(** ** Facts about binary64 numbers

    Derived from the specification of the primitive operations
    ([FloatAxioms]) over [spec_float]. *)

Ltac cmp_cases :=
  repeat match goal with
  | |- context [Z.compare ?a ?b] => destruct (Z.compare_spec a b)
  | |- context [Pos.compare_cont Eq ?a ?b] =>
      change (Pos.compare_cont Eq a b) with (Pos.compare a b);
      destruct (Pos.compare_spec a b)
  | H : context [Z.compare ?a ?b] |- _ => destruct (Z.compare_spec a b)
  | H : context [Pos.compare_cont Eq ?a ?b] |- _ =>
      change (Pos.compare_cont Eq a b) with (Pos.compare a b) in H;
      destruct (Pos.compare_spec a b)
  end.

Lemma SFltb_trans x y z :
  SFltb x y = true -> SFltb y z = true -> SFltb x z = true.
Proof.
  unfold SFltb.
  destruct x as [sx|sx| |sx mx ex], y as [sy|sy| |sy my ey],
           z as [sz|sz| |sz mz ez];
    cbn; try discriminate; try reflexivity;
    try (destruct sx); try (destruct sy); try (destruct sz);
    cbn; try discriminate; try reflexivity;
    intros H1 H2; cmp_cases; cbn in *;
    try discriminate; try reflexivity; subst; try lia.
Qed.

Lemma SFleb_ltb_false x y : SFleb x y = true -> SFltb y x = false.
Proof.
  unfold SFleb, SFltb.
  destruct x as [sx|sx| |sx mx ex], y as [sy|sy| |sy my ey];
    cbn; try discriminate; try reflexivity;
    try (destruct sx); try (destruct sy);
    cbn; try discriminate; try reflexivity;
    intros H1; cmp_cases; cbn in *;
    try discriminate; try reflexivity; subst; try lia.
Qed.

Lemma ltb_trans x y z : (x <? y) = true -> (y <? z) = true -> (x <? z) = true.
Proof. rewrite !FloatAxioms.ltb_spec. apply SFltb_trans. Qed.

Lemma leb_ltb_false x y : (x <=? y) = true -> (y <? x) = false.
Proof.
  rewrite FloatAxioms.leb_spec, FloatAxioms.ltb_spec. apply SFleb_ltb_false.
Qed.

(** A finite number is a zero or has a mantissa and an exponent. *)
Lemma finite_cases x :
  is_finite x = true ->
  (exists s, Prim2SF x = S754_zero s) \/
  (exists s m e, Prim2SF x = S754_finite s m e).
Proof.
  unfold is_finite, is_nan, is_infinity.
  rewrite !FloatAxioms.eqb_spec, abs_spec.
  destruct (Prim2SF x) as [s|s| |s m e].
  - intros _. left. eauto.
  - destruct s; intros H; vm_compute in H; discriminate.
  - intros H; vm_compute in H; discriminate.
  - intros _. right. eauto.
Qed.

Lemma IntDef_sub_diag a : IntDef.Z.sub a a = Z0.
Proof. exact (Z.sub_diag a). Qed.

Lemma IntDef_min_id a : IntDef.Z.min a a = a.
Proof. exact (Z.min_id a). Qed.

Lemma SFsub_self s m e :
  SF64sub (S754_finite s m e) (S754_finite s m e) = S754_zero false.
Proof.
  unfold SF64sub, SFsub. cbv zeta. rewrite IntDef_min_id. unfold shl_align.
  rewrite !IntDef_sub_diag. reflexivity.
Qed.

Lemma SFeqb_finite_r x s m e :
  SFeqb x (S754_finite s m e) = true -> x = S754_finite s m e.
Proof.
  unfold SFeqb. destruct x as [sx|sx| |sx mx ex]; cbn; try discriminate.
  - destruct s; discriminate.
  - destruct sx; discriminate.
  - destruct sx, s; try discriminate; cmp_cases; cbn; try discriminate;
      intros _; subst; reflexivity.
Qed.

Lemma Prim2SF_tenth : Prim2SF 0.1 = S754_finite false 7205759403792794 (-56).
Proof. reflexivity. Qed.

(** With a finite scale equal to the target ([===]), the eased scale is equal
    to the scale again. *)
Lemma ease_fixed s t :
  is_finite s = true -> (t =? s) = true -> (ease s t =? s) = true.
Proof.
  intros Hf He. unfold ease.
  rewrite !FloatAxioms.eqb_spec in *. rewrite add_spec, mul_spec, sub_spec.
  destruct (finite_cases s Hf) as [[b Hs]|(b & m & e & Hs)]; rewrite Hs in *.
  - destruct (Prim2SF t) as [st|st| |st mt et]; cbn in He;
      try discriminate; try (destruct st; discriminate).
    destruct st, b; reflexivity.
  - apply SFeqb_finite_r in He. rewrite He, SFsub_self, Prim2SF_tenth.
    cbn. rewrite Z.compare_refl, Pos.compare_cont_refl.
    destruct b; reflexivity.
Qed.

(** A finite scale other than [-0] is reproduced bit for bit. *)
Lemma ease_same s :
  is_finite s = true -> s <> neg_zero -> ease s s = s.
Proof.
  intros Hf Hnz. apply Prim2SF_inj. unfold ease.
  rewrite add_spec, mul_spec, sub_spec.
  destruct (finite_cases s Hf) as [[b Hs]|(b & m & e & Hs)]; rewrite Hs.
  - destruct b; [|reflexivity].
    exfalso. apply Hnz. rewrite <- (SF2Prim_Prim2SF s), Hs. reflexivity.
  - rewrite SFsub_self, Prim2SF_tenth. reflexivity.
Qed.

Lemma eqb_refl_finite s : is_finite s = true -> (s =? s) = true.
Proof.
  unfold is_finite, is_nan. destruct (s =? s); [reflexivity|discriminate].
Qed.

(* ------------------------------------------------------------------ *)
(** ** Iterating the easing rule *)

Lemma ease_iter_fixed s t : ease s t = s -> forall n, ease_iter n s t = s.
Proof.
  intros H n. induction n as [|n IH]; [reflexivity|].
  cbn [ease_iter]. rewrite H. exact IH.
Qed.





(* ------------------------------------------------------------------ *)
(** ** The easing rule in exact arithmetic *)

Section ExactRule.

#[local] Open Scope Q_scope.








End ExactRule.

(* ------------------------------------------------------------------ *)
(** ** The easing rule in binary64 *)



(* ------------------------------------------------------------------ *)
(** ** Scene graphs *)

Lemma Object3D_forall_ind (P : Object3D -> Prop) :
  (forall n cs, Forall P cs -> P (Obj n cs)) -> forall o, P o.
Proof.
  intros H. fix IH 1. intros [n cs]. apply H.
  induction cs as [|c cs IHcs]; constructor; [apply IH|exact IHcs].
Qed.

Lemma objects_traverse cb o :
  objects (traverse cb o) = map cb (objects o).
Proof.
  induction o as [n cs IH] using Object3D_forall_ind.
  cbn [traverse objects map]. f_equal.
  induction IH as [|c cs Hc _ IHcs]; [reflexivity|].
  cbn [map flat_map]. now rewrite map_app, Hc, IHcs.
Qed.

Lemma Forall2_map_r {A : Type} (R : A -> A -> Prop) (f : A -> A) l :
  (forall a, R a (f a)) -> Forall2 R l (map f l).
Proof. intros H. induction l; cbn; constructor; auto. Qed.

Lemma Forall2_compose {A : Type} (R : A -> A -> Prop) :
  (forall a b c, R a b -> R b c -> R a c) ->
  forall l1 l2 l3, Forall2 R l1 l2 -> Forall2 R l2 l3 -> Forall2 R l1 l3.
Proof.
  intros HR l1 l2 l3 H12. revert l3.
  induction H12 as [|a b l1 l2 Hab _ IH]; intros l3 H23;
    inversion H23; subst; constructor; eauto.
Qed.

Lemma same_frame_trans a b c :
  same_frame a b -> same_frame b c -> same_frame a c.
Proof. unfold same_frame. intuition congruence. Qed.

(* ------------------------------------------------------------------ *)
(** ** The tick on one object *)

Section SceneFacts.

Variable rotateOnAxis : Quaternion.t -> Vector3.t -> float -> Quaternion.t.
Variable originalTick : float -> SceneManager -> SceneManager.

Lemma tickObject_userData delta obj :
  userData (tickObject rotateOnAxis delta obj) = userData obj.
Proof.
  unfold tickObject.
  destruct (UserData.rotationAxis (userData obj)),
           (UserData.rotationSpeed (userData obj)); cbn;
    destruct (UserData.targetScale (userData obj)); reflexivity.
Qed.

Lemma tickObject_same_frame delta obj :
  same_frame obj (tickObject rotateOnAxis delta obj).
Proof.
  unfold same_frame, tickObject.
  destruct (UserData.rotationAxis (userData obj)),
           (UserData.rotationSpeed (userData obj)); cbn;
    destruct (UserData.targetScale (userData obj)); cbn; auto.
Qed.

Lemma tickObject_scale delta obj :
  scale (tickObject rotateOnAxis delta obj) =
  match UserData.targetScale (userData obj) with
  | Some t => Vector3.setScalar (ease (Vector3.x (scale obj)) t)
  | None => scale obj
  end.
Proof.
  unfold tickObject, ease.
  destruct (UserData.rotationAxis (userData obj)),
           (UserData.rotationSpeed (userData obj)); cbn;
    destruct (UserData.targetScale (userData obj)); reflexivity.
Qed.

Lemma tickObject_quaternion delta obj :
  quaternion (tickObject rotateOnAxis delta obj) =
  match UserData.rotationAxis (userData obj),
        UserData.rotationSpeed (userData obj) with
  | Some axis, Some speed =>
      rotateOnAxis (quaternion obj) axis (speed * delta)
  | _, _ => quaternion obj
  end.
Proof.
  unfold tickObject.
  destruct (UserData.rotationAxis (userData obj)),
           (UserData.rotationSpeed (userData obj)); cbn;
    destruct (UserData.targetScale (userData obj)); reflexivity.
Qed.

(** C4.  The scale the tick gives an object that carries a target scale is
    the easing rule [scale += (target - scale) * 0.1] applied to the current
    [scale.x] and the target, written to all three components; an object
    without a target scale keeps its scale; and the tick does this to every
    object of the scene. *)
Theorem tick_scale_update_is_easing_rule delta :
  (forall obj,
     scale (tickObject rotateOnAxis delta obj) =
     match UserData.targetScale (userData obj) with
     | Some t => Vector3.setScalar (ease (Vector3.x (scale obj)) t)
     | None => scale obj
     end) /\
  (forall manager,
     objects
       (scene
          (set_scene manager
             (traverse (tickObject rotateOnAxis delta) (scene manager)))) =
     map (tickObject rotateOnAxis delta) (objects (scene manager))).
Proof.
  split.
  - apply tickObject_scale.
  - intros manager. cbn [scene set_scene]. apply objects_traverse.
Qed.

(** C7.  One application of the tick leaves the position, the kind and the
    whole [userData] (target scale, scale descriptor, closures) of every
    object of the scene as they were, provided the wrapped manager tick, which
    runs last, leaves them alone too; the traversal itself changes the
    orientation only of an object that has a rotation axis and speed, and the
    scale only of an object that has a target scale. *)
Theorem tick_touches_only_orientation_and_scale delta manager :
  let ticked :=
    set_scene manager
      (traverse (tickObject rotateOnAxis delta) (scene manager)) in
  Forall2 same_frame
    (objects (scene ticked)) (objects (scene (originalTick delta ticked))) ->
  Forall2 same_frame
    (objects (scene manager))
    (objects (scene (_tick rotateOnAxis originalTick delta manager))) /\
  (forall obj,
     same_frame obj (tickObject rotateOnAxis delta obj) /\
     (UserData.rotationAxis (userData obj) = None \/
      UserData.rotationSpeed (userData obj) = None ->
      quaternion (tickObject rotateOnAxis delta obj) = quaternion obj) /\
     (UserData.targetScale (userData obj) = None ->
      scale (tickObject rotateOnAxis delta obj) = scale obj)).
Proof.
  intros ticked Horig. split.
  - unfold _tick. fold ticked.
    apply (Forall2_compose same_frame same_frame_trans
             _ (objects (scene ticked)) _); [|exact Horig].
    unfold ticked. cbn [scene set_scene]. rewrite objects_traverse.
    apply Forall2_map_r. apply tickObject_same_frame.
  - intros obj. split; [apply tickObject_same_frame|]. split.
    + rewrite tickObject_quaternion. intros [H|H]; rewrite H; [reflexivity|].
      now destruct (UserData.rotationAxis (userData obj)).
    + rewrite tickObject_scale. now intros ->.
Qed.

End SceneFacts.

(** The tick theorem on a scene that holds the sphere, with a wrapped tick
    that only renders. *)
Lemma tick_touches_only_witness :
  let rotateOnAxis := fun (q : Quaternion.t) (_ : Vector3.t) (_ : float) => q in
  let originalTick := fun (_ : float) (m : SceneManager) => m in
  let manager :=
    {| scene := Obj Object3D_new [Obj sphere []]; camera := Object3D_new |} in
  Forall2 same_frame
    (objects (scene manager))
    (objects (scene (_tick rotateOnAxis originalTick 0.016 manager))).
Proof.
  intros rotateOnAxis originalTick manager.
  apply (tick_touches_only_orientation_and_scale
           rotateOnAxis originalTick 0.016 manager).
  cbn. repeat constructor.
Defined.

(* ------------------------------------------------------------------ *)
(** ** Interactive objects *)

Lemma makeInteractable_Interactive obj modalId options :
  Interactive (JS.or_default (opt_scale options) default_scale) modalId
    (makeInteractable obj modalId options).
Proof.
  unfold makeInteractable. constructor; cbn; try reflexivity.
  - eauto.
  - split; reflexivity.
Qed.

(** A closure writes the target scale of its object and nothing else. *)
Lemma call_keeps cb obj :
  let o := fst (call cb obj) in
  position o = position obj /\ quaternion o = quaternion obj /\
  scale o = scale obj /\ isMesh o = isMesh obj /\
  UserData.interactable (userData o) = UserData.interactable (userData obj) /\
  UserData.scale (userData o) = UserData.scale (userData obj) /\
  UserData.rotationAxis (userData o) = UserData.rotationAxis (userData obj) /\
  UserData.rotationSpeed (userData o) = UserData.rotationSpeed (userData obj) /\
  UserData.onHoverEnter (userData o) = UserData.onHoverEnter (userData obj) /\
  UserData.onHoverExit (userData o) = UserData.onHoverExit (userData obj) /\
  UserData.onClick (userData o) = UserData.onClick (userData obj).
Proof. destruct cb; cbn; repeat split; reflexivity. Qed.

Lemma call_optional_keeps f obj :
  let o := fst (call_optional f obj) in
  position o = position obj /\ quaternion o = quaternion obj /\
  scale o = scale obj /\ isMesh o = isMesh obj /\
  UserData.interactable (userData o) = UserData.interactable (userData obj) /\
  UserData.scale (userData o) = UserData.scale (userData obj) /\
  UserData.rotationAxis (userData o) = UserData.rotationAxis (userData obj) /\
  UserData.rotationSpeed (userData o) = UserData.rotationSpeed (userData obj) /\
  UserData.onHoverEnter (userData o) = UserData.onHoverEnter (userData obj) /\
  UserData.onHoverExit (userData o) = UserData.onHoverExit (userData obj) /\
  UserData.onClick (userData o) = UserData.onClick (userData obj).
Proof.
  destruct f as [cb|]; [apply call_keeps|]. cbn. repeat split; reflexivity.
Qed.

Section InteractionFacts.

Variable rotateOnAxis : Quaternion.t -> Vector3.t -> float -> Quaternion.t.

Lemma react_keeps e obj :
  let o := react rotateOnAxis e obj in
  position o = position obj /\ isMesh o = isMesh obj /\
  UserData.interactable (userData o) = UserData.interactable (userData obj) /\
  UserData.scale (userData o) = UserData.scale (userData obj) /\
  UserData.rotationAxis (userData o) = UserData.rotationAxis (userData obj) /\
  UserData.rotationSpeed (userData o) = UserData.rotationSpeed (userData obj) /\
  UserData.onHoverEnter (userData o) = UserData.onHoverEnter (userData obj) /\
  UserData.onHoverExit (userData o) = UserData.onHoverExit (userData obj) /\
  UserData.onClick (userData o) = UserData.onClick (userData obj).
Proof.
  destruct e; cbn [react].
  - rewrite tickObject_userData.
    destruct (tickObject_same_frame rotateOnAxis delta obj) as (? & ? & ?).
    repeat split; assumption.
  - unfold pointer_onHoverEnter.
    pose proof (call_optional_keeps (UserData.onHoverEnter (userData obj)) obj).
    cbv zeta in *. intuition.
  - unfold pointer_onHoverExit.
    pose proof (call_optional_keeps (UserData.onHoverExit (userData obj)) obj).
    cbv zeta in *. intuition.
  - unfold pointer_onClick.
    pose proof (call_optional_keeps (UserData.onClick (userData obj)) obj).
    cbv zeta in *. intuition.
Qed.

Lemma react_Interactive sc modalId e obj :
  Interactive sc modalId obj -> Interactive sc modalId (react rotateOnAxis e obj).
Proof.
  intros H. pose proof (react_keeps e obj) as K. cbv zeta in K.
  destruct K as (_ & _ & Kf & Ks & _ & _ & Ke & Kx & Kc).
  destruct H as [Hf Hs [t Ht] He Hx Hc Hu].
  constructor; try congruence.
  - destruct e; cbn [react].
    + rewrite tickObject_userData. eauto.
    + unfold pointer_onHoverEnter. rewrite He. cbn. eauto.
    + unfold pointer_onHoverExit. rewrite Hx. cbn. eauto.
    + unfold pointer_onClick. rewrite Hc. cbn. eauto.
  - destruct e; cbn [react].
    + rewrite tickObject_scale, Ht. split; reflexivity.
    + unfold pointer_onHoverEnter. rewrite He. exact Hu.
    + unfold pointer_onHoverExit. rewrite Hx. exact Hu.
    + unfold pointer_onClick. rewrite Hc. exact Hu.
Qed.

Lemma run_cons e es obj :
  run rotateOnAxis (e :: es) obj = run rotateOnAxis es (react rotateOnAxis e obj).
Proof. reflexivity. Qed.

Lemma run_Interactive sc modalId es : forall obj,
  Interactive sc modalId obj -> Interactive sc modalId (run rotateOnAxis es obj).
Proof.
  induction es as [|e es IH]; intros obj H; [exact H|].
  rewrite run_cons. apply IH. now apply react_Interactive.
Qed.

Lemma react_uniform e obj :
  Vector3.uniform (scale obj) ->
  Vector3.uniform (scale (react rotateOnAxis e obj)).
Proof.
  intros Hu. destruct e; cbn [react].
  - rewrite tickObject_scale.
    destruct (UserData.targetScale (userData obj)); [split; reflexivity|exact Hu].
  - unfold pointer_onHoverEnter.
    pose proof (call_optional_keeps (UserData.onHoverEnter (userData obj)) obj)
      as K.
    cbv zeta in K. destruct K as (_ & _ & -> & _). exact Hu.
  - unfold pointer_onHoverExit.
    pose proof (call_optional_keeps (UserData.onHoverExit (userData obj)) obj)
      as K.
    cbv zeta in K. destruct K as (_ & _ & -> & _). exact Hu.
  - unfold pointer_onClick.
    pose proof (call_optional_keeps (UserData.onClick (userData obj)) obj)
      as K.
    cbv zeta in K. destruct K as (_ & _ & -> & _). exact Hu.
Qed.

Lemma run_uniform es : forall obj,
  Vector3.uniform (scale obj) ->
  Vector3.uniform (scale (run rotateOnAxis es obj)).
Proof.
  induction es as [|e es IH]; intros obj H; [exact H|].
  rewrite run_cons. apply IH. now apply react_uniform.
Qed.


(** C5, as the code has it.  For an object set up by [makeInteractable], in
    any state it reaches through frames and pointer events: the hover-enter
    closure sets the target scale to the hover factor, the hover-exit closure
    sets it to the base factor, the click closure sets it to the click factor
    or, when that is absent, to the hover factor; hovering opens nothing, and
    a click opens the modal exactly when the [modalId] is a non-empty string
    (a [modalId] that is left out or empty opens nothing), as is the
    [modalId] of each model the script loads. *)
Theorem callbacks_set_target_scale obj modalId options es :
  let sc := JS.or_default (opt_scale options) default_scale in
  let o := run rotateOnAxis es (makeInteractable obj modalId options) in
  pointer_onHoverEnter o = (set_targetScale o (hover sc), []) /\
  pointer_onHoverExit o = (set_targetScale o (base sc), []) /\
  fst (pointer_onClick o) =
    set_targetScale o (JS.nullish (click sc) (hover sc)) /\
  snd (pointer_onClick o) =
    match modalId with
    | Some id => if JS.truthy_string id then [OpenModal o id] else []
    | None => []
    end /\
  (forall t, UserData.targetScale (userData (set_targetScale o t)) = Some t) /\
  Forall (fun args => JS.truthy_arg (Args.modalId args) = true) models.
Proof.
  intros sc o.
  assert (H : Interactive sc modalId o)
    by (apply run_Interactive, makeInteractable_Interactive).
  destruct H as [_ _ _ He Hx Hc _].
  unfold pointer_onHoverEnter, pointer_onHoverExit, pointer_onClick.
  rewrite He, Hx, Hc. cbn. repeat split; try reflexivity.
  - destruct modalId; reflexivity.
  - repeat constructor.
Qed.

(** C10.  An object set up by [makeInteractable] has a uniform scale and a
    target scale at once and in every state it reaches through frames and
    pointer events, and so has the sphere, whose target scale is set by hand;
    and one frame makes the scale of any object that carries a target scale
    uniform, whatever its scale was. *)
Theorem scale_stays_uniform :
  (forall obj modalId options es,
     let o := run rotateOnAxis es (makeInteractable obj modalId options) in
     Vector3.uniform (scale o) /\
     UserData.targetScale (userData o) <> None) /\
  (forall es, Vector3.uniform (scale (run rotateOnAxis es sphere))) /\
  (forall delta obj,
     UserData.targetScale (userData obj) <> None ->
     Vector3.uniform (scale (tickObject rotateOnAxis delta obj))).
Proof.
  split; [|split].
  - intros obj modalId options es o.
    assert (H : Interactive
                  (JS.or_default (opt_scale options) default_scale) modalId o)
      by (apply run_Interactive, makeInteractable_Interactive).
    destruct H as [_ _ [t Ht] _ _ _ Hu]. split; [exact Hu|congruence].
  - intros es. apply run_uniform. split; reflexivity.
  - intros delta obj H. rewrite tickObject_scale.
    destruct (UserData.targetScale (userData obj)); [|congruence].
    split; reflexivity.
Qed.

End InteractionFacts.

(** The frame half of the uniformity theorem on an object whose three scale
    components differ. *)
Lemma scale_stays_uniform_witness :
  Vector3.uniform
    (scale
       (tickObject (fun q _ _ => q) 0.016
          (set_targetScale (set_scale Object3D_new (Vector3.mk 1 2 3)) 1.5))).
Proof.
  apply (proj2 (proj2 (scale_stays_uniform (fun q _ _ => q)))).
  cbn. discriminate.
Defined.

(** C5 as stated fails for an empty [modalId]: one was supplied, and the
    click opens nothing. *)
Lemma click_with_empty_modalId_opens_nothing :
  exists modalId : option string,
    modalId <> None /\
    snd (pointer_onClick
           (makeInteractable Object3D_new modalId
              {| opt_scale := None; opt_rotation := None |})) = [].
Proof.
  exists (Some EmptyString). split; [discriminate|reflexivity].
Qed.

(* ------------------------------------------------------------------ *)
(** ** Rotation *)



(* ------------------------------------------------------------------ *)
(** ** The base state *)

Lemma zero_or_neg_zero b s :
  Prim2SF b = S754_zero s -> b = 0 \/ b = neg_zero.
Proof.
  intros H. rewrite <- (SF2Prim_Prim2SF b), H.
  destruct s; [right|left]; reflexivity.
Qed.

(** Eased towards itself, a finite scale stays equal ([===]) to itself. *)
Lemma ease_iter_at_rest b :
  is_finite b = true -> forall n, (ease_iter n b b =? b) = true.
Proof.
  intros Hf n.
  destruct (finite_cases b Hf) as [[s Hs]|(s & m & e & Hs)].
  - destruct (zero_or_neg_zero b s Hs) as [-> | ->].
    + rewrite ease_iter_fixed; reflexivity.
    + destruct n as [|n]; [reflexivity|]. cbn [ease_iter].
      change (ease neg_zero neg_zero) with 0.
      rewrite ease_iter_fixed; reflexivity.
  - rewrite ease_iter_fixed.
    + now apply eqb_refl_finite.
    + apply ease_same; [exact Hf|].
      intros ->. discriminate Hs.
Qed.

Section RestFacts.

Variable rotateOnAxis : Quaternion.t -> Vector3.t -> float -> Quaternion.t.

(** Frames alone: the target scale is not touched, and the scale follows the
    iterated easing rule. *)
Lemma run_frames deltas : forall obj t s,
  UserData.targetScale (userData obj) = Some t ->
  scale obj = Vector3.setScalar s ->
  userData (run rotateOnAxis (map Frame deltas) obj) = userData obj /\
  scale (run rotateOnAxis (map Frame deltas) obj) =
    Vector3.setScalar (ease_iter (List.length deltas) s t).
Proof.
  induction deltas as [|d ds IH]; intros obj t s Ht Hs.
  - split; [reflexivity|exact Hs].
  - cbn [map List.length ease_iter]. rewrite run_cons. cbn [react].
    destruct (IH (tickObject rotateOnAxis d obj) t (ease s t)) as [Hu Hsc].
    + now rewrite tickObject_userData.
    + rewrite tickObject_scale, Ht, Hs. reflexivity.
    + rewrite Hu, Hsc, tickObject_userData. split; reflexivity.
Qed.


(** C9, as the code has it.  With a finite current scale equal to the target
    scale, the easing rule, and so one frame, gives a scale equal to the
    current one (the same number bit for bit, except that [-0] becomes [0]);
    an object set up by [makeInteractable] with a finite base
    scale keeps the base scale as target and as scale through any number of
    frames without pointer events; the base scales the script configures are
    finite. *)
Theorem rest_is_fixed_point_for_finite_scales :
  (forall s t,
     is_finite s = true -> (t =? s) = true -> (ease s t =? s) = true) /\
  (forall s, is_finite s = true -> s <> neg_zero -> ease s s = s) /\
  (forall delta obj t,
     UserData.targetScale (userData obj) = Some t ->
     is_finite (Vector3.x (scale obj)) = true ->
     (t =? Vector3.x (scale obj)) = true ->
     exists s',
       scale (tickObject rotateOnAxis delta obj) = Vector3.setScalar s' /\
       (s' =? Vector3.x (scale obj)) = true) /\
  (forall obj modalId options deltas,
     let b := base (JS.or_default (opt_scale options) default_scale) in
     let o :=
       run rotateOnAxis (map Frame deltas)
         (makeInteractable obj modalId options) in
     is_finite b = true ->
     UserData.targetScale (userData o) = Some b /\
     exists s, scale o = Vector3.setScalar s /\ (s =? b) = true) /\
  Forall
    (fun args =>
       is_finite (base (JS.or_default (Args.scale args) normal_scale)) = true)
    models.
Proof.
  split; [exact ease_fixed|]. split; [exact ease_same|].
  split; [|split; [|repeat constructor]].
  - intros delta obj t Ht Hf He.
    exists (ease (Vector3.x (scale obj)) t). split.
    + now rewrite tickObject_scale, Ht.
    + now apply ease_fixed.
  - intros obj modalId options deltas b o Hf.
    destruct (run_frames deltas (makeInteractable obj modalId options) b b)
      as [Hu Hs]; try reflexivity.
    fold o in Hu, Hs. split.
    + rewrite Hu. reflexivity.
    + exists (ease_iter (List.length deltas) b b). split; [exact Hs|].
      now apply ease_iter_at_rest.
Qed.

End RestFacts.




(** The rule half of the fixed-point theorem at the default base scale. *)
Lemma rest_is_fixed_point_witness :
  (ease BASE_SCALE BASE_SCALE =? BASE_SCALE) = true.
Proof.
  apply (proj1 (rest_is_fixed_point_for_finite_scales (fun q _ _ => q)));
    reflexivity.
Defined.

(** C9 as stated fails for an infinite scale: set up with [base = Infinity],
    the object has its scale equal to its target scale, and one frame turns
    the scale into [NaN]. *)
Lemma infinite_rest_scale_is_lost :
  exists sc,
    let o :=
      makeInteractable Object3D_new None
        {| opt_scale := Some sc; opt_rotation := None |} in
    let o' := tickObject (fun q _ _ => q) 0.016 o in
    UserData.targetScale (userData o) = Some (Vector3.x (scale o)) /\
    (Vector3.x (scale o) =? Vector3.x (scale o)) = true /\
    (Vector3.x (scale o') =? Vector3.x (scale o)) = false /\
    is_nan (Vector3.x (scale o')) = true.
Proof.
  exists {| base := infinity; hover := infinity; click := None |}.
  repeat split; reflexivity.
Qed.

(* ------------------------------------------------------------------ *)
(** ** Edge pan *)

Lemma edge_tests_exclusive mouseX :
  (mouseX <? 0.05) = true -> (0.95 <? mouseX) = false.
Proof.
  intros H. destruct (0.95 <? mouseX) eqn:E; [|reflexivity].
  pose proof (ltb_trans _ _ _ E H) as C. discriminate C.
Qed.

Section ControlsFacts.

Variable setFromQuaternion : Quaternion.t -> Euler.t.
Variable setFromEuler : Euler.t -> Quaternion.t.
Variable originalUpdate : float -> Node -> Node.

(** C2.  With the pointer in [[0, 0.05)] the yaw of the Euler angles read
    from the camera grows by [0.02]; in [(0.95, 1]] it shrinks by [0.02]; in
    [[0.05, 0.95]] the angles are not changed; the other two angles are never
    changed, and the angles so obtained are what [controls.update] writes
    back to the camera. *)
Theorem edge_pan_regions mouseX euler :
  ((0 <=? mouseX) = true -> (mouseX <? 0.05) = true ->
   edgePan mouseX euler = Euler.set_y euler (Euler.y euler + 0.02)) /\
  ((0.95 <? mouseX) = true -> (mouseX <=? 1) = true ->
   edgePan mouseX euler = Euler.set_y euler (Euler.y euler - 0.02)) /\
  ((0.05 <=? mouseX) = true -> (mouseX <=? 0.95) = true ->
   edgePan mouseX euler = euler) /\
  (forall delta object,
     quaternion
       (update setFromQuaternion setFromEuler originalUpdate
          mouseX delta object) =
     setFromEuler
       (edgePan mouseX
          (setFromQuaternion (quaternion (originalUpdate delta object))))).
Proof.
  unfold edgePan, edgeMargin, panSpeed.
  change (1 - 0.05) with 0.95.
  repeat split.
  - intros _ H. now rewrite H, (edge_tests_exclusive mouseX H).
  - intros H _.
    destruct (mouseX <? 0.05) eqn:E.
    + rewrite (edge_tests_exclusive mouseX E) in H. discriminate H.
    + now rewrite H.
  - intros H1 H2.
    now rewrite (leb_ltb_false _ _ H1), (leb_ltb_false _ _ H2).
Qed.

End ControlsFacts.

(** The edge-pan theorem with the pointer at [0.01], inside the left margin. *)
Lemma edge_pan_witness :
  edgePan 0.01 (Euler.mk 0 0.5 0) =
  Euler.set_y (Euler.mk 0 0.5 0) (0.5 + 0.02).
Proof.
  apply (proj1 (edge_pan_regions (fun _ => Euler.mk 0 0 0)
                  (fun _ => Quaternion.mk 0 0 0 1) (fun _ o => o)
                  0.01 (Euler.mk 0 0.5 0)));
    reflexivity.
Defined.

(* ------------------------------------------------------------------ *)
(** ** Model loading *)

Section LoadingFacts.

Variable setRotationY : Quaternion.t -> float -> Quaternion.t.
Variable load : string -> LoaderResult.

(** A rejected [loadModelSafe] inside [loadInteractiveModel] reaches no
    handler: nothing is logged, the rejection is reported as unhandled, and
    the scene is as before. *)
Lemma loadInteractiveModel_logs args w :
  let w' := discard (loadInteractiveModel setRotationY load args w) in
  console w' = console w /\
  unhandled w' = unhandled w ++ failure load (Args.path args) /\
  (forall err, load (Args.path args) = OnError err -> manager w' = manager w).
Proof.
  unfold loadInteractiveModel, loadModelSafe, failure.
  destruct (load (Args.path args)) as [gltf|err]; cbn.
  - rewrite app_nil_r. repeat split. discriminate.
  - repeat split.
Qed.

(** A rejected [loadModelSafe] for the warehouse is passed to
    [console.error]; nothing stays unhandled, and the scene is as before. *)
Lemma loadWarehouse_logs w :
  let w' := loadWarehouse setRotationY load w in
  console w' = console w ++ failure load warehouse_path /\
  unhandled w' = unhandled w /\
  (forall err, load warehouse_path = OnError err -> manager w' = manager w).
Proof.
  unfold loadWarehouse, loadModelSafe, failure.
  destruct (load warehouse_path) as [gltf|err]; cbn.
  - rewrite app_nil_r. repeat split. discriminate.
  - repeat split.
Qed.

Lemma load_models_logs ms : forall w,
  let w' :=
    fold_left
      (fun w args => discard (loadInteractiveModel setRotationY load args w))
      ms w in
  console w' = console w /\
  unhandled w' =
    unhandled w ++ flat_map (fun a => failure load (Args.path a)) ms.
Proof.
  induction ms as [|a ms IH]; intros w; cbn [fold_left flat_map].
  - now rewrite app_nil_r.
  - destruct (IH (discard (loadInteractiveModel setRotationY load a w)))
      as [Hc Hu].
    destruct (loadInteractiveModel_logs a w) as (Hc1 & Hu1 & _).
    cbv zeta in *. rewrite Hc, Hu, Hc1, Hu1, app_assoc. split; reflexivity.
Qed.

Lemma loadAll_logs w :
  let w' := loadAll setRotationY load w in
  unhandled w' =
    unhandled w ++ flat_map (fun a => failure load (Args.path a)) models /\
  console w' = console w ++ failure load warehouse_path.
Proof.
  unfold loadAll.
  destruct (load_models_logs models w) as [Hc Hu].
  destruct (loadWarehouse_logs
              (fold_left
                 (fun w args =>
                    discard (loadInteractiveModel setRotationY load args w))
                 models w)) as (Hc' & Hu' & _).
  cbv zeta in *. rewrite Hc', Hu', Hc, Hu. split; reflexivity.
Qed.

End LoadingFacts.

(** C3 on the code.  After the loading statements of the script, the
    failures of the five [loadInteractiveModel] calls are unhandled
    rejections, in program order, and none of them is logged; only a failure
    of the warehouse load is passed to [console.error].  With a loader that
    fails for the first model only, the error ends up unhandled, the console
    stays empty, and the other four models and the warehouse are in the
    scene. *)
Theorem model_load_failures_are_unhandled :
  (forall setRotationY load w,
     let w' := loadAll setRotationY load w in
     unhandled w' =
       unhandled w ++ flat_map (fun a => failure load (Args.path a)) models /\
     console w' = console w ++ failure load warehouse_path) /\
  (let load := fun path =>
     if String.eqb path "./assets/pressure/pressure.gltf"
     then OnError "404"%string
     else OnLoad (GLTF.mk (Obj Object3D_new [])) in
   let w :=
     {| manager := {| scene := Obj Object3D_new []; camera := Object3D_new |};
        console := []; unhandled := [] |} in
   let w' := loadAll (fun q _ => q) load w in
   unhandled w' = ["404"%string] /\ console w' = [] /\
   List.length (children (scene (manager w'))) = 5%nat).
Proof.
  split.
  - exact loadAll_logs.
  - vm_compute. repeat split.
Qed.

(* ------------------------------------------------------------------ *)
(** ** Background audio *)

Lemma clicks_without_listeners n : forall p,
  clickListeners p = [] -> clicks n p = p.
Proof.
  induction n as [|n IH]; intros p H; [reflexivity|].
  cbn [clicks]. assert (E : click_window p = p).
  { unfold click_window. rewrite H. cbn. destruct p; cbn in *. now subst. }
  rewrite E. now apply IH.
Qed.

(** C8.  When the first [play()] is rejected, one click listener is
    registered, with [once]; the first click on the window calls [play()] a
    second time and removes the listener, so that further clicks call it no
    more.  When the first [play()] succeeds no listener is registered and
    clicks call nothing. *)
Theorem audio_resumes_on_first_click reason n :
  let blocked := startAudio (Rejected reason) initial_page in
  let started := startAudio (Fulfilled tt) initial_page in
  clickListeners blocked = [{| handler := PlayAudio; once := true |}] /\
  playCalls blocked = 1%nat /\
  playCalls (clicks (S n) blocked) = 2%nat /\
  clickListeners (clicks (S n) blocked) = [] /\
  clickListeners started = [] /\
  playCalls (clicks n started) = 1%nat.
Proof.
  cbn zeta. repeat split; try reflexivity.
  - cbn [clicks]. now rewrite clicks_without_listeners.
  - cbn [clicks]. now rewrite clicks_without_listeners.
  - now rewrite clicks_without_listeners.
Qed.

(* ================================================================== *)
(** * Further properties of the script *)

(** ** Setting objects up *)

(** X1.  Setting an object up twice is setting it up once with the second
    arguments, except for the rotation: a second call without a rotation
    keeps the axis and speed the first call stored.  In particular a
    repeated call with the same arguments changes nothing. *)
Theorem makeInteractable_twice obj m1 o1 m2 sc2 :
  (forall r2,
     makeInteractable (makeInteractable obj m1 o1) m2
       {| opt_scale := sc2; opt_rotation := Some r2 |} =
     makeInteractable obj m2 {| opt_scale := sc2; opt_rotation := Some r2 |}) /\
  makeInteractable (makeInteractable obj m1 o1) m2
    {| opt_scale := sc2; opt_rotation := None |} =
  makeInteractable obj m2
    {| opt_scale := sc2; opt_rotation := opt_rotation o1 |} /\
  makeInteractable (makeInteractable obj m1 o1) m1 o1 =
  makeInteractable obj m1 o1.
Proof.
  unfold makeInteractable.
  repeat split; cbn; destruct (opt_rotation o1); reflexivity.
Qed.

Lemma makeInteractable_idem obj m o :
  makeInteractable (makeInteractable obj m o) m o = makeInteractable obj m o.
Proof.
  unfold makeInteractable. cbn. destruct (opt_rotation o); reflexivity.
Qed.

Lemma objects_map_traverse cb cs :
  flat_map objects (map (traverse cb) cs) = map cb (flat_map objects cs).
Proof.
  induction cs as [|c cs IH]; [reflexivity|].
  cbn [map flat_map]. now rewrite map_app, objects_traverse, IH.
Qed.

Lemma applyInteractionRecursively_list obj modalId options :
  objects (applyInteractionRecursively obj modalId options) =
    makeInteractable (node obj) modalId options ::
    map (fun child =>
           if isMesh child then makeInteractable child modalId options
           else child)
        (flat_map objects (children obj)).
Proof.
  unfold applyInteractionRecursively. cbn [traverse objects].
  rewrite objects_map_traverse. f_equal.
  destruct (isMesh (makeInteractable (node obj) modalId options));
    [apply makeInteractable_idem|reflexivity].
Qed.

(** X2.  [applyInteractionRecursively] sets up the object it is given, mesh
    or not, sets up every descendant that is a mesh, and leaves every other
    descendant as it was; it neither adds nor removes objects, and every
    object it set up carries the same descriptor and [modalId]. *)
Theorem applyInteractionRecursively_objects obj modalId options :
  let sc := JS.or_default (opt_scale options) default_scale in
  let result := applyInteractionRecursively obj modalId options in
  objects result =
    makeInteractable (node obj) modalId options ::
    map (fun child =>
           if isMesh child then makeInteractable child modalId options
           else child)
        (flat_map objects (children obj)) /\
  List.length (objects result) = List.length (objects obj) /\
  Interactive sc modalId (node result) /\
  Forall (fun o => isMesh o = true -> Interactive sc modalId o)
    (objects result).
Proof.
  intros sc result.
  pose proof (applyInteractionRecursively_list obj modalId options) as E.
  fold result in E.
  split; [exact E|]. split; [|split].
  - rewrite E. destruct obj as [n cs]. cbn. now rewrite length_map.
  - unfold result, applyInteractionRecursively. cbn [traverse node].
    destruct (isMesh (makeInteractable (node obj) modalId options));
      apply makeInteractable_Interactive.
  - rewrite E. constructor.
    + intros _. apply makeInteractable_Interactive.
    + apply Forall_forall. intros o Hin Hmesh.
      apply in_map_iff in Hin as (child & <- & _).
      destruct (isMesh child) eqn:Ec.
      * apply makeInteractable_Interactive.
      * congruence.
Qed.

(* ------------------------------------------------------------------ *)
(** ** Pointer events and frames *)

(** X3.  A pointer event never moves, turns or rescales an object and never
    touches its descriptors or closures: whatever closures the object
    carries, the object after the event is the object itself or the object
    with a new target scale. *)
Theorem pointer_events_only_write_target obj :
  Forall
    (fun handler =>
       fst (handler obj) = obj \/
       exists t, fst (handler obj) = set_targetScale obj t)
    [pointer_onClick; pointer_onHoverEnter; pointer_onHoverExit].
Proof.
  assert (H : forall f,
             fst (call_optional f obj) = obj \/
             exists t, fst (call_optional f obj) = set_targetScale obj t).
  { intros [cb|]; [|left; reflexivity].
    destruct cb; cbn; eauto. }
  unfold pointer_onClick, pointer_onHoverEnter, pointer_onHoverExit.
  constructor; [apply H|]. constructor; [apply H|].
  constructor; [apply H|constructor].
Qed.

Section FrameFacts.

Variable rotateOnAxis : Quaternion.t -> Vector3.t -> float -> Quaternion.t.

(** X4.  An object without a target scale, without a complete rotation
    descriptor and without closures is left exactly as it is by every
    sequence of frames and pointer events. *)
Theorem plain_objects_are_inert obj es :
  UserData.targetScale (userData obj) = None ->
  UserData.rotationAxis (userData obj) = None \/
  UserData.rotationSpeed (userData obj) = None ->
  UserData.onHoverEnter (userData obj) = None ->
  UserData.onHoverExit (userData obj) = None ->
  UserData.onClick (userData obj) = None ->
  run rotateOnAxis es obj = obj.
Proof.
  intros Ht Hr He Hx Hc.
  assert (R : forall e, react rotateOnAxis e obj = obj).
  { intros [delta| | |]; cbn [react].
    - unfold tickObject.
      destruct Hr as [Hr|Hr]; rewrite Hr.
      + now rewrite Ht.
      + destruct (UserData.rotationAxis (userData obj)); now rewrite Ht.
    - unfold pointer_onHoverEnter. now rewrite He.
    - unfold pointer_onHoverExit. now rewrite Hx.
    - unfold pointer_onClick. now rewrite Hc. }
  induction es as [|e es IH]; [reflexivity|].
  now rewrite run_cons, R.
Qed.

End FrameFacts.

(** The inertness theorem on a fresh object. *)
Lemma plain_objects_are_inert_witness :
  run (fun q _ _ => q) [Frame 0.016; Click; HoverEnter; Frame 0.016]
    Object3D_new = Object3D_new.
Proof.
  apply (plain_objects_are_inert (fun q _ _ => q)); auto.
Defined.

Section EventFacts.

Variable rotateOnAxis : Quaternion.t -> Vector3.t -> float -> Quaternion.t.

Lemma react_target sc modalId e obj t :
  Interactive sc modalId obj ->
  UserData.targetScale (userData obj) = Some t ->
  UserData.targetScale (userData (react rotateOnAxis e obj)) =
    Some (target_after sc t e).
Proof.
  intros [_ _ _ He Hx Hc _] Ht. destruct e; cbn [react target_after].
  - now rewrite tickObject_userData.
  - unfold pointer_onHoverEnter. now rewrite He.
  - unfold pointer_onHoverExit. now rewrite Hx.
  - unfold pointer_onClick. now rewrite Hc.
Qed.

Lemma run_target sc modalId es : forall obj t,
  Interactive sc modalId obj ->
  UserData.targetScale (userData obj) = Some t ->
  UserData.targetScale (userData (run rotateOnAxis es obj)) =
    Some (fold_left (target_after sc) es t).
Proof.
  induction es as [|e es IH]; intros obj t Hi Ht; [exact Ht|].
  rewrite run_cons. cbn [fold_left]. apply IH.
  - now apply react_Interactive.
  - now apply (react_target sc modalId).
Qed.

Lemma target_after_frames sc ds t :
  fold_left (target_after sc) (map Frame ds) t = t.
Proof. induction ds as [|d ds IH]; [reflexivity|exact IH]. Qed.

(** X5.  The target scale of an object set up by [makeInteractable] is
    decided by the pointer events alone, each overwriting the one before:
    after any sequence of events it is the base factor when no pointer event
    occurred, and otherwise the factor of the last pointer event, however
    many frames followed it. *)
Theorem last_pointer_event_decides_target obj modalId options es ds :
  let sc := JS.or_default (opt_scale options) default_scale in
  let o := makeInteractable obj modalId options in
  let target es := UserData.targetScale (userData (run rotateOnAxis es o)) in
  target es = Some (fold_left (target_after sc) es (base sc)) /\
  target (map Frame ds) = Some (base sc) /\
  target (es ++ HoverEnter :: map Frame ds) = Some (hover sc) /\
  target (es ++ HoverExit :: map Frame ds) = Some (base sc) /\
  target (es ++ Click :: map Frame ds) =
    Some (JS.nullish (click sc) (hover sc)).
Proof.
  intros sc o target.
  assert (H : forall l,
             target l = Some (fold_left (target_after sc) l (base sc))).
  { intros l. unfold target.
    apply (run_target sc modalId);
      [apply makeInteractable_Interactive|reflexivity]. }
  rewrite !H, !fold_left_app. cbn [fold_left target_after].
  rewrite !target_after_frames. repeat split; reflexivity.
Qed.

Lemma call_optional_same_but_orientation f o o' :
  same_but_orientation o o' ->
  same_but_orientation (fst (call_optional f o)) (fst (call_optional f o')).
Proof.
  unfold same_but_orientation. intros (Hp & Hs & Hm & Hu).
  destruct f as [[sc|sc|m sc| | |]|]; cbn; rewrite ?Hu; auto.
Qed.

Lemma react_same_but_orientation e e' o o' :
  match e, e' with
  | Frame _, Frame _ => True
  | _, _ => e = e'
  end ->
  same_but_orientation o o' ->
  same_but_orientation (react rotateOnAxis e o) (react rotateOnAxis e' o').
Proof.
  intros He H.
  destruct e as [d| | |], e' as [d'| | |]; try discriminate He;
    cbn [react].
  - destruct H as (Hp & Hs & Hm & Hu). unfold same_but_orientation.
    rewrite !tickObject_scale, !tickObject_userData, Hu, Hs.
    destruct (tickObject_same_frame rotateOnAxis d o) as (-> & -> & _).
    destruct (tickObject_same_frame rotateOnAxis d' o') as (-> & -> & _).
    auto.
  - unfold pointer_onHoverEnter.
    destruct H as (Hp & Hs & Hm & Hu). rewrite Hu.
    apply call_optional_same_but_orientation. repeat split; assumption.
  - unfold pointer_onHoverExit.
    destruct H as (Hp & Hs & Hm & Hu). rewrite Hu.
    apply call_optional_same_but_orientation. repeat split; assumption.
  - unfold pointer_onClick.
    destruct H as (Hp & Hs & Hm & Hu). rewrite Hu.
    apply call_optional_same_but_orientation. repeat split; assumption.
Qed.

(** X6.  The time step of a frame matters for the orientation only: two
    histories of one object with the same pointer events and the same number
    of frames in between, whatever the time steps of the frames, end with
    the same position, scale and [userData]. *)
Theorem frame_times_only_turn obj es es' :
  Forall2
    (fun e e' =>
       match e, e' with
       | Frame _, Frame _ => True
       | _, _ => e = e'
       end)
    es es' ->
  same_but_orientation (run rotateOnAxis es obj) (run rotateOnAxis es' obj).
Proof.
  intros H.
  assert (G : forall o o',
             same_but_orientation o o' ->
             same_but_orientation
               (run rotateOnAxis es o) (run rotateOnAxis es' o')).
  { induction H as [|e e' es es' He _ IH]; intros o o' Ho; [exact Ho|].
    rewrite !run_cons. apply IH. now apply react_same_but_orientation. }
  apply G. repeat split; reflexivity.
Qed.

End EventFacts.

(** The frame-time theorem on a hovered model at two frame rates. *)
Lemma frame_times_only_turn_witness :
  same_but_orientation
    (run (fun q _ _ => q) [HoverEnter; Frame 0.016; Frame 0.016]
       (makeInteractable Object3D_new None
          {| opt_scale := None; opt_rotation := None |}))
    (run (fun q _ _ => q) [HoverEnter; Frame 0.033; Frame 0.008]
       (makeInteractable Object3D_new None
          {| opt_scale := None; opt_rotation := None |})).
Proof.
  apply (frame_times_only_turn (fun q _ _ => q)).
  repeat constructor.
Defined.

(* ------------------------------------------------------------------ *)
(** ** Scales that are not numbers *)

Lemma is_nan_Prim2SF x : is_nan x = true -> Prim2SF x = S754_nan.
Proof.
  unfold is_nan. rewrite FloatAxioms.eqb_spec. unfold SFeqb.
  destruct (Prim2SF x) as [s|s| |s m e]; cbn; try discriminate; auto.
  - destruct s; discriminate.
  - rewrite Z.compare_refl, Pos.compare_cont_refl. destruct s; discriminate.
Qed.

Lemma Prim2SF_nan x : Prim2SF x = S754_nan -> x = nan.
Proof. intros H. now rewrite <- (SF2Prim_Prim2SF x), H. Qed.



Section NanFacts.

Variable rotateOnAxis : Quaternion.t -> Vector3.t -> float -> Quaternion.t.



End NanFacts.


(* ------------------------------------------------------------------ *)
(** ** The pointer position and the edge pan *)

Lemma ltb_nan_l x y : is_nan x = true -> (x <? y) = false.
Proof.
  intros H. rewrite FloatAxioms.ltb_spec, (is_nan_Prim2SF _ H). reflexivity.
Qed.

Lemma ltb_nan_r x y : is_nan y = true -> (x <? y) = false.
Proof.
  intros H. rewrite FloatAxioms.ltb_spec, (is_nan_Prim2SF _ H).
  unfold SFltb. destruct (Prim2SF x); reflexivity.
Qed.

(** X8.  For every value of [mouseX], in the unit interval or not, at most
    one of the two edge tests fires: the yaw grows by [0.02] when
    [mouseX < 0.05], shrinks by [0.02] when [mouseX > 0.95], and the angles
    are untouched otherwise; the other two angles are never changed; and a
    [mouseX] that is [NaN] changes nothing. *)
Theorem edge_pan_on_every_number mouseX euler :
  edgePan mouseX euler =
    (if mouseX <? 0.05 then Euler.set_y euler (Euler.y euler + 0.02)
     else if 0.95 <? mouseX then Euler.set_y euler (Euler.y euler - 0.02)
     else euler) /\
  Euler.x (edgePan mouseX euler) = Euler.x euler /\
  Euler.z (edgePan mouseX euler) = Euler.z euler /\
  (is_nan mouseX = true -> edgePan mouseX euler = euler).
Proof.
  assert (E : edgePan mouseX euler =
    (if mouseX <? 0.05 then Euler.set_y euler (Euler.y euler + 0.02)
     else if 0.95 <? mouseX then Euler.set_y euler (Euler.y euler - 0.02)
     else euler)).
  { unfold edgePan, edgeMargin, panSpeed. change (1 - 0.05) with 0.95.
    destruct (mouseX <? 0.05) eqn:L; [|reflexivity].
    now rewrite (edge_tests_exclusive mouseX L). }
  split; [exact E|]. rewrite E. repeat split.
  - destruct (mouseX <? 0.05), (0.95 <? mouseX); reflexivity.
  - destruct (mouseX <? 0.05), (0.95 <? mouseX); reflexivity.
  - intros H. now rewrite (ltb_nan_l _ _ H), (ltb_nan_r _ _ H).
Qed.

(** The last part of the theorem at [NaN]. *)
Lemma edge_pan_on_every_number_witness :
  edgePan nan (Euler.mk 0 0.5 0) = Euler.mk 0 0.5 0.
Proof.
  apply (proj2 (proj2 (proj2
           (edge_pan_on_every_number nan (Euler.mk 0 0.5 0))))).
  reflexivity.
Defined.

Lemma sub_self_finite x : is_finite x = true -> x - x = 0.
Proof.
  intros Hf. apply Prim2SF_inj. rewrite sub_spec.
  destruct (finite_cases x Hf) as [[b Hs]|(b & m & e & Hs)]; rewrite Hs.
  - destruct b; reflexivity.
  - apply SFsub_self.
Qed.

Lemma zero_div_finite w :
  is_finite w = true -> (w =? 0) = false -> 0 / w = 0 \/ 0 / w = neg_zero.
Proof.
  intros Hf Hz.
  assert (H : exists b, Prim2SF (0 / w) = S754_zero b).
  { rewrite div_spec. rewrite FloatAxioms.eqb_spec in Hz.
    destruct (finite_cases w Hf) as [[b Hs]|(b & m & e & Hs)];
      rewrite Hs in *.
    - destruct b; discriminate Hz.
    - eexists. reflexivity. }
  destruct H as [b H]. now apply (zero_or_neg_zero _ b).
Qed.

Lemma zero_div_zero w : (w =? 0) = true -> 0 / w = nan.
Proof.
  intros Hz. apply Prim2SF_nan. rewrite div_spec.
  rewrite FloatAxioms.eqb_spec in Hz. unfold SFeqb in Hz.
  destruct (Prim2SF w) as [b|b| |b m e]; cbn in Hz;
    try discriminate; try (destruct b; discriminate).
  reflexivity.
Qed.

(** X9.  With the pointer exactly on the left border of the canvas
    ([clientX = left], both finite): on a canvas of finite non-zero width
    [mouseX] is a zero and the next update pans by [+0.02]; on a canvas of
    width zero [mouseX] is [NaN] and the update does not pan. *)
Theorem pointer_on_left_border left width euler :
  is_finite left = true ->
  (is_finite width = true -> (width =? 0) = false ->
   (mousemove left left width =? 0) = true /\
   edgePan (mousemove left left width) euler =
     Euler.set_y euler (Euler.y euler + 0.02)) /\
  ((width =? 0) = true ->
   is_nan (mousemove left left width) = true /\
   edgePan (mousemove left left width) euler = euler).
Proof.
  intros Hl. unfold mousemove. rewrite (sub_self_finite left Hl). split.
  - intros Hw Hz.
    destruct (zero_div_finite width Hw Hz) as [-> | ->];
      split; reflexivity.
  - intros Hz. rewrite (zero_div_zero width Hz). split; reflexivity.
Qed.

(** The theorem on a canvas 800 wide whose left border is at 8. *)
Lemma pointer_on_left_border_witness :
  edgePan (mousemove 8 8 800) (Euler.mk 0 0.5 0) =
  Euler.set_y (Euler.mk 0 0.5 0) (0.5 + 0.02).
Proof.
  apply (proj1 (pointer_on_left_border 8 800 (Euler.mk 0 0.5 0) eq_refl));
    reflexivity.
Defined.

(* ------------------------------------------------------------------ *)
(** ** What the loads leave in the scene *)

Section SettlingFacts.

Variable setRotationY : Quaternion.t -> float -> Quaternion.t.
Variable load : string -> LoaderResult.

Lemma whenSettled_effect l w :
  let w' := whenSettled setRotationY load l w in
  children (scene (manager w')) =
    children (scene (manager w)) ++ added setRotationY load l /\
  node (scene (manager w')) = node (scene (manager w)) /\
  camera (manager w') = camera (manager w) /\
  console w' = console w ++ logged load l /\
  unhandled w' = unhandled w ++ dropped load l.
Proof.
  destruct l as [args|]; cbn [whenSettled added logged dropped].
  - unfold loadInteractiveModel, loadModelSafe, loaded, failure.
    destruct (load (Args.path args)) as [gltf|err]; cbn;
      rewrite ?app_nil_r; repeat split; reflexivity.
  - unfold loadWarehouse, loadModelSafe, loaded, failure.
    destruct (load warehouse_path) as [gltf|err]; cbn;
      rewrite ?app_nil_r; repeat split; reflexivity.
Qed.

Lemma settleLoads_effect ls : forall w,
  let w' := settleLoads setRotationY load ls w in
  children (scene (manager w')) =
    children (scene (manager w)) ++ flat_map (added setRotationY load) ls /\
  node (scene (manager w')) = node (scene (manager w)) /\
  camera (manager w') = camera (manager w) /\
  console w' = console w ++ flat_map (logged load) ls /\
  unhandled w' = unhandled w ++ flat_map (dropped load) ls.
Proof.
  induction ls as [|l ls IH]; intros w; cbn [settleLoads fold_left flat_map].
  - rewrite !app_nil_r. repeat split; reflexivity.
  - destruct (IH (whenSettled setRotationY load l w))
      as (Hc & Hn & Hm & Hl & Hu).
    destruct (whenSettled_effect l w) as (Hc1 & Hn1 & Hm1 & Hl1 & Hu1).
    cbv zeta in *. unfold settleLoads in *.
    rewrite Hc, Hn, Hm, Hl, Hu, Hc1, Hn1, Hm1, Hl1, Hu1, !app_assoc.
    repeat split; reflexivity.
Qed.

Lemma loadAll_settles w :
  loadAll setRotationY load w = settleLoads setRotationY load loads w.
Proof. reflexivity. Qed.

Lemma one_outcome l :
  (List.length (added setRotationY load l) +
   List.length (logged load l) + List.length (dropped load l) = 1)%nat.
Proof.
  destruct l as [args|]; cbn [added logged dropped]; unfold loaded, failure.
  - destruct (load (Args.path args)); reflexivity.
  - destruct (load warehouse_path); reflexivity.
Qed.

(** X10.  Once the six loads of the script have settled, the scene holds the
    objects it held before, in the same order, followed by one prepared clone
    for each load that succeeded; the scene object itself and the camera are
    as before.  Every load leaves exactly one trace: an object added to the
    scene, or an error that is logged (the warehouse) or left unhandled (the
    interactive models). *)
Theorem loads_add_one_object_or_leave_one_error w :
  let w' := loadAll setRotationY load w in
  children (scene (manager w')) =
    children (scene (manager w)) ++
    flat_map (added setRotationY load) loads /\
  node (scene (manager w')) = node (scene (manager w)) /\
  camera (manager w') = camera (manager w) /\
  console w' = console w ++ flat_map (logged load) loads /\
  unhandled w' = unhandled w ++ flat_map (dropped load) loads /\
  Forall
    (fun l =>
       (List.length (added setRotationY load l) +
        List.length (logged load l) + List.length (dropped load l) = 1)%nat)
    loads.
Proof.
  cbv zeta. rewrite loadAll_settles.
  destruct (settleLoads_effect loads w) as (Hc & Hn & Hm & Hl & Hu).
  cbv zeta in *. repeat split; try assumption.
  apply Forall_forall. intros l _. apply one_outcome.
Qed.

Lemma Permutation_short {A : Type} (l l' : list A) :
  Permutation l l' -> (List.length l' <= 1)%nat -> l = l'.
Proof.
  intros H Hlen. destruct l' as [|a [|b l']]; cbn in Hlen; try lia.
  - apply Permutation_sym in H. now apply Permutation_nil in H.
  - apply Permutation_sym in H. now apply Permutation_length_1_inv in H.
Qed.

(** X11.  The order in which the six loads settle matters only for the
    order of the results: whatever the order, the scene ends up with the
    same objects up to their order after the ones it had, the same lines were
    passed to [console.error], and the same rejections are unhandled up to
    their order. *)
Theorem settling_order_is_immaterial ls w :
  Permutation ls loads ->
  let w' := settleLoads setRotationY load ls w in
  let w0 := loadAll setRotationY load w in
  Permutation (children (scene (manager w'))) (children (scene (manager w0))) /\
  node (scene (manager w')) = node (scene (manager w0)) /\
  console w' = console w0 /\
  Permutation (unhandled w') (unhandled w0).
Proof.
  intros HP w' w0. unfold w', w0. rewrite loadAll_settles.
  destruct (settleLoads_effect ls w) as (Hc & Hn & _ & Hl & Hu).
  destruct (settleLoads_effect loads w) as (Hc0 & Hn0 & _ & Hl0 & Hu0).
  cbv zeta in *. rewrite Hc, Hc0, Hn, Hn0, Hl, Hl0, Hu, Hu0.
  repeat split.
  - apply Permutation_app_head. now apply Permutation_flat_map.
  - f_equal. apply Permutation_short; [now apply Permutation_flat_map|].
    cbn. rewrite app_nil_r. unfold failure.
    destruct (load warehouse_path); cbn; lia.
  - apply Permutation_app_head. now apply Permutation_flat_map.
Qed.

Lemma loadInteractiveModel_fulfilled args gltf w :
  load (Args.path args) = OnLoad gltf ->
  loadInteractiveModel setRotationY load args w =
  (Fulfilled tt,
   scene_add (interactiveClone setRotationY args (GLTF.scene gltf)) w).
Proof.
  intros H. unfold loadInteractiveModel, loadModelSafe. now rewrite H.
Qed.

Lemma interactiveClone_shape args model :
  exists n,
    position n = Args.position args /\
    interactiveClone setRotationY args model =
    applyInteractionRecursively (Obj n (children model)) (Args.modalId args)
      {| opt_scale := Some (JS.or_default (Args.scale args) normal_scale);
         opt_rotation := Args.rotation args |}.
Proof.
  unfold interactiveClone. cbv zeta. eexists. split; [|reflexivity].
  reflexivity.
Qed.

(** X12.  When the loader answers with a model, [loadInteractiveModel]
    appends exactly one object to the scene and logs nothing.  The root of
    that object is at the position asked for and is interactive with the
    descriptor and [modalId] of the call whether it is a mesh or not; the
    clone has as many objects as the model; and every mesh in it, at any
    depth, is interactive with the same descriptor and has its own scale set
    to the base factor. *)
Theorem loaded_model_is_interactive args gltf w :
  load (Args.path args) = OnLoad gltf ->
  let sc := JS.or_default (Args.scale args) normal_scale in
  let w' := discard (loadInteractiveModel setRotationY load args w) in
  exists clone,
    children (scene (manager w')) = children (scene (manager w)) ++ [clone] /\
    console w' = console w /\ unhandled w' = unhandled w /\
    position (node clone) = Args.position args /\
    scale (node clone) = Vector3.setScalar (base sc) /\
    Interactive sc (Args.modalId args) (node clone) /\
    List.length (objects clone) = List.length (objects (GLTF.scene gltf)) /\
    Forall
      (fun o =>
         isMesh o = true ->
         Interactive sc (Args.modalId args) o /\
         scale o = Vector3.setScalar (base sc))
      (objects clone).
Proof.
  intros H sc w'. unfold w'.
  rewrite (loadInteractiveModel_fulfilled args gltf w H).
  exists (interactiveClone setRotationY args (GLTF.scene gltf)).
  cbn [discard scene_add manager console unhandled scene set_scene add children].
  destruct (interactiveClone_shape args (GLTF.scene gltf)) as (n & Hn & ->).
  set (root := Obj n (children (GLTF.scene gltf))).
  set (options := {| opt_scale := Some (JS.or_default (Args.scale args) normal_scale);
                     opt_rotation := Args.rotation args |}).
  pose proof (applyInteractionRecursively_list root (Args.modalId args) options)
    as E.
  assert (Hroot : node (applyInteractionRecursively root (Args.modalId args) options)
                  = makeInteractable (node root) (Args.modalId args) options).
  { unfold applyInteractionRecursively. cbn [traverse node].
    destruct (isMesh (makeInteractable (node root) (Args.modalId args) options));
      [apply makeInteractable_idem|reflexivity]. }
  split; [reflexivity|]. split; [reflexivity|]. split; [reflexivity|].
  split; [rewrite Hroot; exact Hn|]. split; [now rewrite Hroot|].
  split; [rewrite Hroot;
          apply (makeInteractable_Interactive
                   (node root) (Args.modalId args) options)|].
  split.
  - rewrite E. destruct (GLTF.scene gltf) as [n0 cs]. cbn.
    now rewrite length_map.
  - rewrite E. constructor.
    + intros _. split; [|reflexivity].
      apply (makeInteractable_Interactive (node root) (Args.modalId args) options).
    + apply Forall_forall. intros o Hin Hmesh.
      apply in_map_iff in Hin as (child & <- & _).
      destruct (isMesh child) eqn:Ec; [|congruence].
      split; [|reflexivity].
      apply (makeInteractable_Interactive child (Args.modalId args) options).
Qed.

End SettlingFacts.

(** The settling-order theorem with the warehouse settling first and the
    models in reverse order, none of them failing. *)
Lemma settling_order_is_immaterial_witness :
  let load := fun _ : string => OnLoad (GLTF.mk (Obj Object3D_new [])) in
  let w :=
    {| manager := {| scene := Obj Object3D_new []; camera := Object3D_new |};
       console := []; unhandled := [] |} in
  let ls :=
    WarehouseLoad :: map InteractiveLoad [melting; air; weird_shape; hands; pressure] in
  Permutation
    (children (scene (manager (settleLoads (fun q _ => q) load ls w))))
    (children (scene (manager (loadAll (fun q _ => q) load w)))).
Proof.
  intros load w ls.
  apply (settling_order_is_immaterial (fun q _ => q) load ls w).
  unfold ls, loads, models. cbn [map app].
  apply Permutation_sym.
  apply (Permutation_trans (Permutation_rev _)). cbn [rev app].
  apply perm_skip. apply perm_skip. apply perm_skip. apply perm_skip.
  apply perm_skip. apply perm_skip. apply perm_nil.
Defined.

(** The loaded-model theorem on the first model of the script, loaded as a
    group with one mesh in it. *)
Lemma loaded_model_is_interactive_witness :
  let mesh := mkNode (Vector3.mk 0 0 0) (Quaternion.mk 0 0 0 1)
                (Vector3.mk 1 1 1) true UserData.empty in
  let load := fun _ : string =>
    OnLoad (GLTF.mk (Obj Object3D_new [Obj mesh []])) in
  let w :=
    {| manager := {| scene := Obj Object3D_new []; camera := Object3D_new |};
       console := []; unhandled := [] |} in
  exists clone,
    children
      (scene (manager (discard (loadInteractiveModel (fun q _ => q) load pressure w))))
      = [] ++ [clone] /\
    position (node clone) = Vector3.mk 10 20 (-70).
Proof.
  intros mesh load w.
  destruct (loaded_model_is_interactive (fun q _ => q) load pressure
              (GLTF.mk (Obj Object3D_new [Obj mesh []])) w eq_refl)
    as (clone & Hc & _ & _ & Hp & _).
  exists clone. split; [exact Hc|exact Hp].
Defined.

(* ------------------------------------------------------------------ *)
(** ** The top level of the module *)

Section MainFacts.

Variable setRotationY : Quaternion.t -> float -> Quaternion.t.
Variable load : string -> LoaderResult.
Variable Texture : Type.
Variable loadEXR : string -> Texture + Error.
Variable fromEquirectangular : Texture -> Texture.

(** X13.  The environment map is awaited at the top level before anything is
    loaded.  When its load fails, the script ends there: the scene, the
    console and the environment are as they were, the manager is never
    started, and the error is one nobody handles.  When it succeeds the
    environment is set, the manager is started, and the scene holds what it
    held, then the sphere, then one clone for each model load that succeeded.
    The background audio is started either way. *)
Theorem environment_failure_stops_the_script autoplay w :
  let s :=
    main setRotationY load loadEXR fromEquirectangular autoplay w in
  (forall err,
     loadEXR "./assets/studio_small_09_4k.exr" = inr err ->
     started s = false /\ environment s = None /\
     manager (world s) = manager w /\ console (world s) = console w /\
     unhandled (world s) = unhandled w ++ [err]) /\
  (forall texture,
     loadEXR "./assets/studio_small_09_4k.exr" = inl texture ->
     started s = true /\
     environment s = Some (fromEquirectangular texture) /\
     children (scene (manager (world s))) =
       children (scene (manager w)) ++
       Obj sphere [] :: flat_map (added setRotationY load) loads) /\
  page s = startAudio autoplay initial_page.
Proof.
  cbv zeta. unfold main, loadHDRI. split; [|split].
  - intros err ->. cbn. repeat split.
  - intros texture ->. cbn [started environment world].
    split; [reflexivity|]. split; [reflexivity|].
    rewrite loadAll_settles.
    destruct (settleLoads_effect setRotationY load loads
                (scene_add (Obj sphere []) w)) as (Hc & _).
    cbv zeta in Hc. rewrite Hc. cbn [scene_add manager scene set_scene add children].
    now rewrite <- app_assoc.
  - destruct (loadEXR "./assets/studio_small_09_4k.exr"); reflexivity.
Qed.

End MainFacts.

(** The theorem with an environment map that fails to load. *)
Lemma environment_failure_witness :
  let w :=
    {| manager := {| scene := Obj Object3D_new []; camera := Object3D_new |};
       console := []; unhandled := [] |} in
  let s :=
    main (fun q _ => q) (fun _ => OnLoad (GLTF.mk (Obj Object3D_new [])))
      (fun _ => inr "404"%string) (fun t : unit => t) (Fulfilled tt) w in
  started s = false /\ environment s = None /\
  manager (world s) = manager w /\ console (world s) = console w /\
  unhandled (world s) = unhandled w ++ ["404"%string].
Proof.
  intros w s.
  apply (proj1 (environment_failure_stops_the_script
                  (fun q _ => q)
                  (fun _ => OnLoad (GLTF.mk (Obj Object3D_new [])))
                  unit (fun _ => inr "404"%string) (fun t => t)
                  (Fulfilled tt) w)).
  reflexivity.
Defined.

(* ------------------------------------------------------------------ *)
(** ** The sphere *)

Section SphereFacts.

Variable rotateOnAxis : Quaternion.t -> Vector3.t -> float -> Quaternion.t.

(** X14.  Through every sequence of frames and pointer events the sphere
    stays where it is and is never turned, its target scale is [1] or [1.5],
    hovering sets it to [1.5] and leaving to [1], and a click changes nothing
    on the sphere and navigates to the darkroom page. *)
Theorem sphere_toggles_and_navigates es :
  let s := run rotateOnAxis es sphere in
  position s = position sphere /\
  quaternion s = quaternion sphere /\
  (UserData.targetScale (userData s) = Some 1 \/
   UserData.targetScale (userData s) = Some 1.5) /\
  pointer_onHoverEnter s = (set_targetScale s 1.5, []) /\
  pointer_onHoverExit s = (set_targetScale s 1, []) /\
  pointer_onClick s = (s, [Navigate "./darkroom.html"]).
Proof.
  cbv zeta.
  assert (G : forall o,
    position o = position sphere /\
    quaternion o = quaternion sphere /\
    (UserData.targetScale (userData o) = Some 1 \/
     UserData.targetScale (userData o) = Some 1.5) /\
    UserData.rotationAxis (userData o) = None /\
    UserData.onHoverEnter (userData o) = Some SphereEnterFn /\
    UserData.onHoverExit (userData o) = Some SphereExitFn /\
    UserData.onClick (userData o) = Some SphereClickFn ->
    let s := run rotateOnAxis es o in
    position s = position sphere /\
    quaternion s = quaternion sphere /\
    (UserData.targetScale (userData s) = Some 1 \/
     UserData.targetScale (userData s) = Some 1.5) /\
    UserData.rotationAxis (userData s) = None /\
    UserData.onHoverEnter (userData s) = Some SphereEnterFn /\
    UserData.onHoverExit (userData s) = Some SphereExitFn /\
    UserData.onClick (userData s) = Some SphereClickFn).
  { induction es as [|e es IH]; intros o H; [exact H|].
    cbv zeta. rewrite run_cons. apply IH.
    destruct H as (Hp & Hq & Ht & Ha & He & Hx & Hc).
    destruct e; cbn [react].
    - rewrite tickObject_quaternion, tickObject_userData, Ha.
      destruct (tickObject_same_frame rotateOnAxis delta o) as (-> & _).
      repeat split; assumption.
    - unfold pointer_onHoverEnter. rewrite He. cbn.
      repeat split; try assumption. now right.
    - unfold pointer_onHoverExit. rewrite Hx. cbn.
      repeat split; try assumption. now left.
    - unfold pointer_onClick. rewrite Hc. cbn.
      repeat split; assumption. }
  destruct (G sphere) as (Hp & Hq & Ht & _ & He & Hx & Hc).
  { cbn. repeat split; try reflexivity. now left. }
  cbv zeta in *.
  unfold pointer_onHoverEnter, pointer_onHoverExit, pointer_onClick.
  rewrite He, Hx, Hc. repeat split; assumption.
Qed.

End SphereFacts.

(* ------------------------------------------------------------------ *)
(** ** Orientation over time *)

Section TurnFacts.

Variable rotateOnAxis : Quaternion.t -> Vector3.t -> float -> Quaternion.t.

Lemma react_quaternion e obj :
  quaternion (react rotateOnAxis e obj) =
  match e with
  | Frame delta =>
      match UserData.rotationAxis (userData obj),
            UserData.rotationSpeed (userData obj) with
      | Some axis, Some speed =>
          rotateOnAxis (quaternion obj) axis (speed * delta)
      | _, _ => quaternion obj
      end
  | _ => quaternion obj
  end.
Proof.
  destruct e; cbn [react].
  - apply tickObject_quaternion.
  - unfold pointer_onHoverEnter.
    pose proof (call_optional_keeps (UserData.onHoverEnter (userData obj)) obj)
      as K.
    cbv zeta in K. now destruct K as (_ & -> & _).
  - unfold pointer_onHoverExit.
    pose proof (call_optional_keeps (UserData.onHoverExit (userData obj)) obj)
      as K.
    cbv zeta in K. now destruct K as (_ & -> & _).
  - unfold pointer_onClick.
    pose proof (call_optional_keeps (UserData.onClick (userData obj)) obj)
      as K.
    cbv zeta in K. now destruct K as (_ & -> & _).
Qed.

Lemma run_quaternion es : forall obj,
  quaternion (run rotateOnAxis es obj) =
  fold_left
    (fun q e =>
       match e with
       | Frame delta =>
           match UserData.rotationAxis (userData obj),
                 UserData.rotationSpeed (userData obj) with
           | Some axis, Some speed => rotateOnAxis q axis (speed * delta)
           | _, _ => q
           end
       | _ => q
       end)
    es (quaternion obj).
Proof.
  induction es as [|e es IH]; intros obj; [reflexivity|].
  rewrite run_cons, IH. cbn [fold_left].
  pose proof (react_keeps rotateOnAxis e obj) as K. cbv zeta in K.
  destruct K as (_ & _ & _ & _ & -> & -> & _).
  rewrite react_quaternion. destruct e; reflexivity.
Qed.

(** X15.  The orientation of an object is the work of the frames alone.  An
    object set up with a rotation descriptor is turned once per frame about
    the stored axis by [speed * delta], pointer events in between making no
    difference; an object that lacks the axis or the speed is never turned,
    whatever frames and pointer events it goes through. *)
Theorem orientation_follows_the_frames :
  (forall obj modalId sc r es,
     let v := Vector3.normalize (Vector3.of_list (axis r)) in
     quaternion
       (run rotateOnAxis es
          (makeInteractable obj modalId
             {| opt_scale := sc; opt_rotation := Some r |})) =
     fold_left
       (fun q e =>
          match e with
          | Frame delta => rotateOnAxis q v (speed r * delta)
          | _ => q
          end)
       es (quaternion obj)) /\
  (forall obj es,
     UserData.rotationAxis (userData obj) = None \/
     UserData.rotationSpeed (userData obj) = None ->
     quaternion (run rotateOnAxis es obj) = quaternion obj).
Proof.
  split.
  - intros obj modalId sc r es v. rewrite run_quaternion. reflexivity.
  - intros obj es H. rewrite run_quaternion.
    assert (E : forall q (e : Event),
              match e with
              | Frame delta =>
                  match UserData.rotationAxis (userData obj),
                        UserData.rotationSpeed (userData obj) with
                  | Some axis, Some speed =>
                      rotateOnAxis q axis (speed * delta)
                  | _, _ => q
                  end
              | _ => q
              end = q).
    { intros q e. destruct e; try reflexivity.
      destruct H as [-> | ->]; [reflexivity|].
      now destruct (UserData.rotationAxis (userData obj)). }
    generalize (quaternion obj).
    induction es as [|e es IH]; intros q; [reflexivity|].
    cbn [fold_left]. now rewrite E.
Qed.

End TurnFacts.

(** The second part of the theorem on the sphere, which has no rotation
    descriptor. *)
Lemma orientation_follows_the_frames_witness :
  quaternion
    (run (fun _ _ _ => Quaternion.mk 1 0 0 0)
       [Frame 0.016; HoverEnter; Frame 0.016] sphere) =
  quaternion sphere.
Proof.
  apply (proj2 (orientation_follows_the_frames
                  (fun _ _ _ => Quaternion.mk 1 0 0 0))).
  left. reflexivity.
Defined.
